(** * Speech fluency analysis: the annotation pass of [app.py]

    A shallow embedding of [analyze_fluency] (app.py, lines 29-82) and the
    properties of its transcript log and metrics.

    - Python [str] values are strings over the code points 0..255
      (Latin-1), on which [str.lower] and [str.strip] are closed and are
      modelled completely.
    - Python [float] values are binary64 numbers: Rocq's primitive floats,
      with the IEEE operations CPython uses.
    - Python [int] values are [Z].
    - A failing division raises [ZeroDivisionError]; results are carried
      in an error monad.
    - The call into the speech model is external: the embedding starts
      from the value [model.transcribe] returns. *)

From Stdlib Require Import ZArith List String Ascii Bool Lia.
From Stdlib Require Import Floats Uint63.
Import ListNotations.

Set Warnings "-inexact-float".

(** ** Python strings *)

Module PyStr.

Local Open Scope N_scope.

(** [str.lower] on one code point below 256: the ASCII capitals and the
    Latin-1 capitals U+00C0..U+00DE (U+00D7, the multiplication sign,
    excepted) move 32 places up; every other code point is unchanged. *)
Definition lower_char (c : ascii) : ascii :=
  let n := N_of_ascii c in
  if ((65 <=? n) && (n <=? 90))
     || ((192 <=? n) && (n <=? 222) && negb (n =? 215))
  then ascii_of_N (n + 32)
  else c.

(** The code points below 256 that [str.strip] removes (those for which
    [str.isspace] holds): TAB, LF, VT, FF, CR, FS, GS, RS, US, SPACE,
    NEL and NBSP. *)
Definition isspace (c : ascii) : bool :=
  let n := N_of_ascii c in
  ((9 <=? n) && (n <=? 13)) || ((28 <=? n) && (n <=? 32))
  || (n =? 133) || (n =? 160).

Fixpoint lower (s : string) : string :=
  match s with
  | EmptyString => EmptyString
  | String c s' => String (lower_char c) (lower s')
  end.

Fixpoint lstrip (s : string) : string :=
  match s with
  | EmptyString => EmptyString
  | String c s' => if isspace c then lstrip s' else s
  end.

Fixpoint rstrip (s : string) : string :=
  match s with
  | EmptyString => EmptyString
  | String c s' =>
      match rstrip s' with
      | EmptyString => if isspace c then EmptyString else String c EmptyString
      | r => String c r
      end
  end.

Definition strip (s : string) : string := rstrip (lstrip s).

(** Truth value of a string: the empty string is false. *)
Definition truthy (s : string) : bool :=
  match s with EmptyString => false | String _ _ => true end.

(** A string all of whose characters are white space. *)
Fixpoint blank (s : string) : bool :=
  match s with
  | EmptyString => true
  | String c s' => isspace c && blank s'
  end.

(** Equality of two strings up to the case of their letters. *)
Fixpoint caseless_eq (s t : string) : bool :=
  match s, t with
  | EmptyString, EmptyString => true
  | String c s', String d t' =>
      Ascii.eqb (lower_char c) (lower_char d) && caseless_eq s' t'
  | _, _ => false
  end.

End PyStr.

(** ** Python numbers and exceptions *)

Inductive exn : Type :=
| ZeroDivisionError.

Inductive res (A : Type) : Type :=
| Ok (a : A)
| Raise (e : exn).

Arguments Ok {A} a.
Arguments Raise {A} e.

Definition bind {A B : Type} (r : res A) (k : A -> res B) : res B :=
  match r with
  | Ok a => k a
  | Raise e => Raise e
  end.

Notation "x <- r ;; k" := (bind r (fun x => k))
  (at level 61, r at next level, right associativity).

Inductive number : Type :=
| Int (z : Z)
| Float (f : float).

Module PyNum.

(** [int] to [float]: CPython's correctly rounded conversion, for
    [0 <= z < 2^63]. The only integers the program converts are list
    lengths, which CPython keeps below [2^63]. *)
Definition float_of_int (z : Z) : float :=
  PrimFloat.of_uint63 (Uint63.of_Z z).

Definition to_float (x : number) : float :=
  match x with
  | Int z => float_of_int z
  | Float f => f
  end.

(** [x + y]. *)
Definition add (x y : number) : number :=
  match x, y with
  | Int a, Int b => Int (a + b)
  | _, _ => Float (to_float x + to_float y)
  end.

(** [x > y]. *)
Definition gt (x y : number) : bool :=
  match x, y with
  | Int a, Int b => (b <? a)%Z
  | _, _ => (to_float y <? to_float x)%float
  end.

(** [x >= y]. *)
Definition ge (x y : number) : bool :=
  match x, y with
  | Int a, Int b => (b <=? a)%Z
  | _, _ => (to_float y <=? to_float x)%float
  end.

(** [x == y]. *)
Definition eq (x y : number) : bool :=
  match x, y with
  | Int a, Int b => (a =? b)%Z
  | _, _ => (to_float x =? to_float y)%float
  end.

(** [x / y]: true division. A zero divisor, integer or float, raises
    [ZeroDivisionError]; otherwise the operands are taken to [float]
    and divided. *)
Definition truediv (x y : number) : res number :=
  match y with
  | Int b =>
      if (b =? 0)%Z then Raise ZeroDivisionError
      else Ok (Float (to_float x / float_of_int b))
  | Float g =>
      if (g =? 0)%float then Raise ZeroDivisionError
      else Ok (Float (to_float x / g))
  end.

(** [sum(l)] for a list of floats: the items are added from left to
    right, starting from the integer [0], as the language defines [sum].
    (CPython 3.12 and later add floats with a compensated sum, whose
    result can differ from this one in its last bits.) *)
Definition sum (l : list float) : number :=
  fold_left add (map Float l) (Int 0).

(** [len(l)]. *)
Definition len {A : Type} (l : list A) : Z := Z.of_nat (List.length l).

End PyNum.

(** ** The transcription result *)

(** One entry of a segment's ["words"] list: keys ["word"], ["start"] and
    ["end"]. *)
Record word_rec : Type := mk_word {
  w_word : string;
  w_start : float;
  w_end : float
}.

(** One segment: the ["words"] key may be absent; ["end"] is the
    segment's end time. *)
Record segment : Type := mk_segment {
  seg_words : option (list word_rec);
  seg_end : float
}.

(** The value of [model.transcribe(audio_path, word_timestamps=True)]. *)
Record transcription : Type := mk_transcription {
  segments : list segment
}.

(** ** The transcript log *)

(** The entries appended to [transcript_log]. The source formats each one
    as a string: a filler, a repetition and a pause as a marker sentence
    ("Filler detected: ...", "Repetition detected: ...", "Pause of ...s
    detected", each after a pictogram), a word as itself. A word is
    lower-cased, so it is never one of the marker sentences, which have a
    capital letter: the string of an entry determines its kind, and the
    entry is kept here as its kind and its argument. *)
Inductive log_entry : Type :=
| FillerDetected (word : string)
| RepetitionDetected (word : string)
| PauseDetected (pause : float)
| PlainWord (word : string).

Definition is_filler (e : log_entry) : bool :=
  match e with FillerDetected _ => true | _ => false end.

Definition is_repetition (e : log_entry) : bool :=
  match e with RepetitionDetected _ => true | _ => false end.

Definition is_pause (e : log_entry) : bool :=
  match e with PauseDetected _ => true | _ => false end.

Definition is_plain (e : log_entry) : bool :=
  match e with PlainWord _ => true | _ => false end.

Definition count (p : log_entry -> bool) (l : list log_entry) : Z :=
  PyNum.len (filter p l).

(** ** [analyze_fluency] *)

(** [FILLERS = {"um", "uh", "erm", "hmm", "you know", "like"}]; the set is
    only ever tested for membership. *)
Definition FILLERS : list string :=
  ["um"; "uh"; "erm"; "hmm"; "you know"; "like"]%string.

(** [word in FILLERS]. *)
Definition in_FILLERS (word : string) : bool :=
  existsb (String.eqb word) FILLERS.

(** [w["word"].lower().strip()]. *)
Definition normalize (s : string) : string := PyStr.strip (PyStr.lower s).

(** The variables of the loop over [words]. *)
Record loop_state : Type := mk_state {
  repetitions : Z;
  filler_count : Z;
  pauses : list float;
  prev_word : option string;
  prev_end : option float;
  transcript_log : list log_entry
}.

Definition init_state : loop_state :=
  {| repetitions := 0; filler_count := 0; pauses := [];
     prev_word := None; prev_end := None; transcript_log := [] |}.

(** [transcript_log.append(e)]. *)
Definition log_append (st : loop_state) (e : log_entry) : loop_state :=
  {| repetitions := repetitions st; filler_count := filler_count st;
     pauses := pauses st; prev_word := prev_word st;
     prev_end := prev_end st;
     transcript_log := transcript_log st ++ [e] |}.

(** [filler_count += 1]. *)
Definition incr_filler_count (st : loop_state) : loop_state :=
  {| repetitions := repetitions st; filler_count := filler_count st + 1;
     pauses := pauses st; prev_word := prev_word st;
     prev_end := prev_end st; transcript_log := transcript_log st |}.

(** [repetitions += 1]. *)
Definition incr_repetitions (st : loop_state) : loop_state :=
  {| repetitions := repetitions st + 1; filler_count := filler_count st;
     pauses := pauses st; prev_word := prev_word st;
     prev_end := prev_end st; transcript_log := transcript_log st |}.

(** [pauses.append(pause)]. *)
Definition pauses_append (st : loop_state) (pause : float) : loop_state :=
  {| repetitions := repetitions st; filler_count := filler_count st;
     pauses := pauses st ++ [pause]; prev_word := prev_word st;
     prev_end := prev_end st; transcript_log := transcript_log st |}.

(** [prev_word, prev_end = word, end]. *)
Definition set_prev (st : loop_state) (word : string) (end_ : float)
  : loop_state :=
  {| repetitions := repetitions st; filler_count := filler_count st;
     pauses := pauses st; prev_word := Some word;
     prev_end := Some end_; transcript_log := transcript_log st |}.

(** [prev_word and word == prev_word]: [None] and the empty string are
    both false. *)
Definition repeats (prev : option string) (word : string) : bool :=
  match prev with
  | None => false
  | Some p => PyStr.truthy p && String.eqb word p
  end.

(** The threshold [0.7] of the pause test. *)
Definition pause_threshold : float := 0.7%float.

(** The body of [for w in words:] (lines 45-67). *)
Definition loop_body (st : loop_state) (w : word_rec) : loop_state :=
  let word := normalize (w_word w) in
  let start := w_start w in
  let end_ := w_end w in
  (* Filler words *)
  let st :=
    if in_FILLERS word
    then log_append (incr_filler_count st) (FillerDetected word)
    else st in
  (* Repetitions *)
  let st :=
    if repeats (prev_word st) word
    then log_append (incr_repetitions st) (RepetitionDetected word)
    else st in
  (* Pauses *)
  let st :=
    match prev_end st with
    | Some pe =>
        let pause := (start - pe)%float in
        if (pause_threshold <? pause)%float
        then log_append (pauses_append st pause) (PauseDetected pause)
        else st
    | None => st
    end in
  let st := log_append st (PlainWord word) in
  set_prev st word end_.

(** Lines 33-36: the words of the segments that have a ["words"] key, in
    order. *)
Definition words (result : transcription) : list word_rec :=
  fold_left
    (fun acc seg =>
       match seg_words seg with
       | Some ws => acc ++ ws
       | None => acc
       end)
    (segments result) [].

(** Line 71: [result["segments"][-1]["end"] if result["segments"] else 0]. *)
Definition duration (result : transcription) : number :=
  match segments result with
  | [] => Int 0
  | seg :: _ => Float (seg_end (last (segments result) seg))
  end.

Module Metrics.
(** The [metrics] dictionary, one field per key. *)
Record t : Type := mk {
  repetitions : Z;
  fillers : Z;
  avg_pause : number;
  speech_rate : number;
  total_words : Z
}.
End Metrics.

(** The state of the loop once every word is processed. *)
Definition run_loop (ws : list word_rec) : loop_state :=
  fold_left loop_body ws init_state.

Definition analyze_fluency (result : transcription)
  : res (list log_entry * Metrics.t) :=
  let ws := words result in
  let st := run_loop ws in
  (* Summary metrics *)
  let total_words := PyNum.len ws in
  let duration := duration result in
  speech_rate <-
    (if PyNum.gt duration (Int 0)
     then PyNum.truediv (Int total_words) duration
     else Ok (Int 0)) ;;
  avg_pause <-
    (match pauses st with
     | [] => Ok (Int 0)
     | _ :: _ => PyNum.truediv (PyNum.sum (pauses st))
                               (Int (PyNum.len (pauses st)))
     end) ;;
  Ok (transcript_log st,
      {| Metrics.repetitions := repetitions st;
         Metrics.fillers := filler_count st;
         Metrics.avg_pause := avg_pause;
         Metrics.speech_rate := speech_rate;
         Metrics.total_words := total_words |}).

(** ** The page *)

(** What the page shows as the metric "Avg Pause (s)". *)
Inductive shown : Type :=
| Formatted2f (x : number)
| Text (s : string).

(** Line 113, the value of that metric: the average pause formatted with
    two decimals when [metrics["avg_pause"] > 0], the text "No pauses"
    otherwise. The formatted number is kept as the number. *)
Definition avg_pause_shown (m : Metrics.t) : shown :=
  if PyNum.gt (Metrics.avg_pause m) (Int 0)
  then Formatted2f (Metrics.avg_pause m)
  else Text "No pauses".

(** * Vocabulary of the properties *)

(** ** Classes of binary64 numbers *)

Module SF.

(** Sign bit clear and not a NaN: [+0], a positive finite number or
    [+inf]. *)
Definition sf_plus (x : spec_float) : bool :=
  match x with
  | S754_zero false | S754_infinity false | S754_finite false _ _ => true
  | _ => false
  end.

(** Strictly positive: a positive finite number or [+inf]. *)
Definition sf_positive (x : spec_float) : bool :=
  match x with
  | S754_infinity false | S754_finite false _ _ => true
  | _ => false
  end.

(** Finite, with the sign bit clear: [+0] or a positive finite number. *)
Definition sf_finite_plus (x : spec_float) : bool :=
  match x with
  | S754_zero false | S754_finite false _ _ => true
  | _ => false
  end.

(** The shift [shr_fexp] applies to a mantissa [m] at exponent [e]. *)
Definition shift_of (m e : Z) : Z :=
  (fexp prec emax (Zdigits2 m + e) - e)%Z.

End SF.

(** ** What the loop and the function produce *)

(** The entries one iteration appends to the log. *)
Definition new_entries (st : loop_state) (w : word_rec) : list log_entry :=
  skipn (List.length (transcript_log st)) (transcript_log (loop_body st w)).

(** What the filler test, the repetition test and the pause test of one
    iteration append: to the log for the first two, to [pauses] for the
    third. *)
Definition filler_entries (word : string) : list log_entry :=
  if in_FILLERS word then [FillerDetected word] else [].

Definition repetition_entries (prev : option string) (word : string)
  : list log_entry :=
  if repeats prev word then [RepetitionDetected word] else [].

Definition pause_values (prev : option float) (start : float) : list float :=
  match prev with
  | Some pe =>
      if (pause_threshold <? start - pe)%float then [(start - pe)%float]
      else []
  | None => []
  end.

(** The word before the next one to process, if any. *)
Definition last_word (ws : list word_rec) : option word_rec :=
  match ws with
  | [] => None
  | w :: ws' => Some (last ws' w)
  end.

(** [prev_word] and [prev_end] are those of the word [prev]. *)
Definition tracks (prev : option word_rec) (st : loop_state) : Prop :=
  prev_word st = option_map (fun w => normalize (w_word w)) prev
  /\ prev_end st = option_map w_end prev.

(** The counters and the pause list agree with the log. *)
Definition consistent (st : loop_state) : Prop :=
  count is_filler (transcript_log st) = filler_count st
  /\ count is_repetition (transcript_log st) = repetitions st
  /\ filter is_pause (transcript_log st) = map PauseDetected (pauses st).

(** [speech_rate], as a function of the transcription. *)
Definition speech_rate_of (result : transcription) : number :=
  if PyNum.gt (duration result) (Int 0)
  then Float (PyNum.float_of_int (PyNum.len (words result))
              / PyNum.to_float (duration result))
  else Int 0.

(** [avg_pause], as a function of the pause list. *)
Definition avg_pause_of (ps : list float) : number :=
  match ps with
  | [] => Int 0
  | _ :: _ =>
      Float (PyNum.to_float (PyNum.sum ps) / PyNum.float_of_int (PyNum.len ps))
  end.

(** The log [analyze_fluency] returns. *)
Definition log_of (result : transcription) : list log_entry :=
  transcript_log (run_loop (words result)).

(** The metrics [analyze_fluency] returns. *)
Definition metrics_of (result : transcription) : Metrics.t :=
  {| Metrics.repetitions := repetitions (run_loop (words result));
     Metrics.fillers := filler_count (run_loop (words result));
     Metrics.avg_pause := avg_pause_of (pauses (run_loop (words result)));
     Metrics.speech_rate := speech_rate_of result;
     Metrics.total_words := PyNum.len (words result) |}.

(** The entry [e] annotates the word [w], whose predecessor in the input
    is [prev], and [w] triggers it: a filler entry carries the normalized
    text of [w], a filler; a repetition entry carries the normalized text
    of [w], which is that of [prev]; a pause entry carries the time from
    the end of [prev] to the start of [w], above the threshold. *)
Definition annotates (prev : option word_rec) (w : word_rec)
                     (e : log_entry) : Prop :=
  match e with
  | FillerDetected x =>
      x = normalize (w_word w) /\ in_FILLERS x = true
  | RepetitionDetected x =>
      x = normalize (w_word w)
      /\ exists pw, prev = Some pw /\ normalize (w_word pw) = x
  | PauseDetected p =>
      exists pw, prev = Some pw /\ p = (w_start w - w_end pw)%float
                 /\ (pause_threshold <? p)%float = true
  | PlainWord _ => False
  end.

(** [attached prev ws log]: [log] goes through the words [ws] in order,
    and gives for each word its annotations, then at once its own
    [PlainWord] entry. *)
Inductive attached
  : option word_rec -> list word_rec -> list log_entry -> Prop :=
| attached_nil (prev : option word_rec) : attached prev [] []
| attached_cons (prev : option word_rec) (w : word_rec)
    (ws : list word_rec) (anns rest : list log_entry) :
    Forall (annotates prev w) anns ->
    attached (Some w) ws rest ->
    attached prev (w :: ws)
             (anns ++ PlainWord (normalize (w_word w)) :: rest).

(** The words a segment contributes. *)
Definition words_of_segment (seg : segment) : list word_rec :=
  match seg_words seg with
  | Some ws => ws
  | None => []
  end.

(** Ten words in one segment that ends at 5.0 seconds. *)
Definition ten_words_five_seconds : transcription :=
  mk_transcription
    [mk_segment
       (Some (map (fun t => mk_word "go" t t)
                  [0; 0.5; 1; 1.5; 2; 2.5; 3; 3.5; 4; 4.5]%float))
       5].

(** Three words, 1.0 and 2.0 seconds apart. *)
Definition two_pauses : transcription :=
  mk_transcription
    [mk_segment
       (Some [mk_word "a" 0 0.5; mk_word "b" 1.5 2; mk_word "c" 4 4.5])
       4.5].

(** The word [w] repeats the word right before it: the words before [w]
    are [ws], the last of them has the normalized text of [w], and that
    text is not empty. *)
Definition repeats_previous (ws : list word_rec) (w : word_rec) : Prop :=
  exists pw, last_word ws = Some pw
             /\ normalize (w_word pw) = normalize (w_word w)
             /\ normalize (w_word w) <> EmptyString.

(** The segment has a ["words"] key. *)
Definition has_words (seg : segment) : bool :=
  match seg_words seg with
  | Some _ => true
  | None => false
  end.

(** The segment, with an empty ["words"] list when it has none. *)
Definition with_empty_words (seg : segment) : segment :=
  match seg_words seg with
  | Some _ => seg
  | None => mk_segment (Some []) (seg_end seg)
  end.

(** [p > 0.7]: the test a pause passes to enter [pauses]. *)
Definition above_threshold (p : float) : Prop :=
  (pause_threshold <? p)%float = true.

(** ** Vocabulary of the further properties *)

(** The pause values a log shows, in order. *)
Definition pauses_of_log (log : list log_entry) : list float :=
  flat_map (fun e => match e with PauseDetected p => [p] | _ => [] end) log.

(** The word, with its text replaced by the normalized text. *)
Definition renormalized (w : word_rec) : word_rec :=
  mk_word (normalize (w_word w)) (w_start w) (w_end w).

(** The text an entry of the log carries, if any. *)
Definition entry_text (e : log_entry) : option string :=
  match e with
  | FillerDetected x | RepetitionDetected x | PlainWord x => Some x
  | PauseDetected _ => None
  end.

(** What the loop has counted after [n] words. *)
Definition within_bounds (n : nat) (st : loop_state) : Prop :=
  (filler_count st <= Z.of_nat n)%Z
  /\ (repetitions st <= Z.of_nat (n - 1))%Z
  /\ (List.length (pauses st) <= n - 1)%nat
  /\ (List.length (transcript_log st) <= 4 * n - 2)%nat.

(** The string is empty or starts with a character that is not white
    space. *)
Definition starts_clean (s : string) : bool :=
  match s with
  | EmptyString => true
  | String c _ => negb (PyStr.isspace c)
  end.

(** The text of every entry is in normal form. *)
Definition normal_entry (e : log_entry) : Prop :=
  match entry_text e with
  | Some x => normalize x = x
  | None => True
  end.

(** The entries of a log other than its pause entries. *)
Definition text_entries (log : list log_entry) : list log_entry :=
  filter (fun e => negb (is_pause e)) log.

(** The two states agree on all that the texts decide. *)
Definition same_text_state (st st' : loop_state) : Prop :=
  prev_word st = prev_word st'
  /\ repetitions st = repetitions st'
  /\ filler_count st = filler_count st'
  /\ text_entries (transcript_log st) = text_entries (transcript_log st').

(** The two states agree on all that the time stamps decide. *)
Definition same_time_state (st st' : loop_state) : Prop :=
  prev_end st = prev_end st' /\ pauses st = pauses st'.

(** At least one half: [+inf], or a finite number with the sign bit
    clear, a mantissa of 53 bits or more and an exponent of -53 or more. *)
Definition sf_half_up (x : spec_float) : bool :=
  match x with
  | S754_infinity false => true
  | S754_finite false m e => ((2 ^ 52 <=? Zpos m) && (-53 <=? e))%Z
  | _ => false
  end.

(** * Properties *)

(** ** The loop body, variable by variable *)

(** Case analysis on the three tests of the loop body. *)
Ltac loop_simpl :=
  cbn [transcript_log pauses filler_count repetitions prev_word prev_end
       log_append incr_filler_count incr_repetitions pauses_append set_prev
       map app].

Ltac loop_cases st w :=
  unfold loop_body; cbv zeta;
  destruct (in_FILLERS (normalize (w_word w))); loop_simpl;
  destruct (repeats (prev_word st) (normalize (w_word w))); loop_simpl;
  destruct (prev_end st) as [?pe|]; loop_simpl;
  try match goal with
      | |- context [(pause_threshold <? ?x)%float] =>
          destruct (pause_threshold <? x)%float
      end;
  loop_simpl.

Lemma loop_body_log (st : loop_state) (w : word_rec) :
  transcript_log (loop_body st w) =
  transcript_log st
  ++ (filler_entries (normalize (w_word w))
      ++ repetition_entries (prev_word st) (normalize (w_word w))
      ++ map PauseDetected (pause_values (prev_end st) (w_start w))
      ++ [PlainWord (normalize (w_word w))]).
Proof.
  unfold filler_entries, repetition_entries, pause_values.
  loop_cases st w; repeat rewrite <- app_assoc; reflexivity.
Qed.

Lemma loop_body_pauses (st : loop_state) (w : word_rec) :
  pauses (loop_body st w) =
  pauses st ++ pause_values (prev_end st) (w_start w).
Proof.
  unfold pause_values.
  loop_cases st w; rewrite ?app_nil_r; reflexivity.
Qed.

Lemma loop_body_filler_count (st : loop_state) (w : word_rec) :
  filler_count (loop_body st w) =
  (filler_count st + if in_FILLERS (normalize (w_word w)) then 1 else 0)%Z.
Proof.
  loop_cases st w; lia.
Qed.

Lemma loop_body_repetitions (st : loop_state) (w : word_rec) :
  repetitions (loop_body st w) =
  (repetitions st
   + if repeats (prev_word st) (normalize (w_word w)) then 1 else 0)%Z.
Proof.
  loop_cases st w; lia.
Qed.

Lemma loop_body_prev (st : loop_state) (w : word_rec) :
  prev_word (loop_body st w) = Some (normalize (w_word w))
  /\ prev_end (loop_body st w) = Some (w_end w).
Proof.
  loop_cases st w; auto.
Qed.

Lemma skipn_length_app {A : Type} (l k : list A) :
  skipn (List.length l) (l ++ k) = k.
Proof. induction l as [|a l IH]; cbn; auto. Qed.

Lemma new_entries_eq (st : loop_state) (w : word_rec) :
  new_entries st w =
  filler_entries (normalize (w_word w))
  ++ repetition_entries (prev_word st) (normalize (w_word w))
  ++ map PauseDetected (pause_values (prev_end st) (w_start w))
  ++ [PlainWord (normalize (w_word w))].
Proof.
  unfold new_entries. rewrite loop_body_log. apply skipn_length_app.
Qed.

Lemma loop_body_new_entries (st : loop_state) (w : word_rec) :
  transcript_log (loop_body st w) = transcript_log st ++ new_entries st w.
Proof. rewrite new_entries_eq. apply loop_body_log. Qed.

(** ** The loop as a whole *)

Lemma run_loop_snoc (ws : list word_rec) (w : word_rec) :
  run_loop (ws ++ [w]) = loop_body (run_loop ws) w.
Proof. unfold run_loop. rewrite fold_left_app. reflexivity. Qed.

(** A property that holds of the start state and that every iteration
    keeps holds of every state the loop reaches. *)
Lemma loop_invariant (P : loop_state -> Prop) :
  (forall st w, P st -> P (loop_body st w)) ->
  forall ws st, P st -> P (fold_left loop_body ws st).
Proof.
  intros Hstep ws. induction ws as [|w ws IH]; intros st Hst; cbn; auto.
Qed.

Lemma last_word_snoc (ws : list word_rec) (w : word_rec) :
  last_word (ws ++ [w]) = Some w.
Proof.
  destruct ws as [|v ws]; cbn [last_word app]; auto.
  now rewrite last_last.
Qed.

Lemma tracks_init : tracks None init_state.
Proof. split; reflexivity. Qed.

Lemma tracks_loop_body (st : loop_state) (w : word_rec) :
  tracks (Some w) (loop_body st w).
Proof. exact (loop_body_prev st w). Qed.

Lemma tracks_run_loop (ws : list word_rec) :
  tracks (last_word ws) (run_loop ws).
Proof.
  destruct ws as [|w ws] using rev_ind.
  - exact tracks_init.
  - rewrite run_loop_snoc, last_word_snoc. apply tracks_loop_body.
Qed.

Lemma count_app (p : log_entry -> bool) (l k : list log_entry) :
  count p (l ++ k) = (count p l + count p k)%Z.
Proof.
  unfold count, PyNum.len. rewrite filter_app, length_app. lia.
Qed.

Lemma count_nonneg (p : log_entry -> bool) (l : list log_entry) :
  (0 <= count p l)%Z.
Proof. unfold count, PyNum.len. lia. Qed.

Lemma filter_is_pause_map (l : list float) :
  filter is_pause (map PauseDetected l) = map PauseDetected l.
Proof. induction l as [|a l IH]; cbn; congruence. Qed.

Lemma consistent_init : consistent init_state.
Proof. repeat split. Qed.

Lemma consistent_loop_body (st : loop_state) (w : word_rec) :
  consistent st -> consistent (loop_body st w).
Proof.
  intros (Hf & Hr & Hp).
  unfold consistent.
  rewrite loop_body_log, loop_body_filler_count, loop_body_repetitions,
    loop_body_pauses.
  rewrite !count_app, !filter_app, map_app, Hf, Hr, Hp.
  unfold filler_entries, repetition_entries.
  repeat split.
  - destruct (in_FILLERS _), (repeats _ _);
      unfold count; rewrite ?filter_app; cbn;
      induction (pause_values _ _); cbn in *; try lia.
  - destruct (in_FILLERS _), (repeats _ _);
      unfold count; rewrite ?filter_app; cbn;
      induction (pause_values _ _); cbn in *; try lia.
  - f_equal. rewrite filter_is_pause_map.
    destruct (in_FILLERS _), (repeats _ _); cbn; now rewrite app_nil_r.
Qed.

Lemma consistent_run_loop (ws : list word_rec) : consistent (run_loop ws).
Proof.
  unfold run_loop.
  apply loop_invariant; [exact consistent_loop_body | exact consistent_init].
Qed.

(** The words of the log are the input words, normalized, in order. *)
Lemma plain_fold (ws : list word_rec) (st : loop_state) :
  filter is_plain (transcript_log (fold_left loop_body ws st)) =
  filter is_plain (transcript_log st)
  ++ map (fun w => PlainWord (normalize (w_word w))) ws.
Proof.
  revert st. induction ws as [|w ws IH]; intros st; cbn [fold_left map].
  - now rewrite app_nil_r.
  - rewrite IH, loop_body_log, !filter_app, <- app_assoc. f_equal.
    unfold filler_entries, repetition_entries.
    destruct (in_FILLERS _), (repeats _ _); cbn;
      induction (pause_values _ _); cbn; auto.
Qed.

Lemma plain_run_loop (ws : list word_rec) :
  filter is_plain (transcript_log (run_loop ws)) =
  map (fun w => PlainWord (normalize (w_word w))) ws.
Proof. unfold run_loop. rewrite plain_fold. reflexivity. Qed.

(** Every entry of a log is of exactly one of the four kinds. *)
Lemma kinds_partition (l : list log_entry) :
  PyNum.len l =
  (count is_plain l + count is_filler l + count is_repetition l
   + count is_pause l)%Z.
Proof.
  unfold count, PyNum.len.
  induction l as [|e l IH]; cbn [filter List.length]; auto.
  destruct e; cbn [is_plain is_filler is_repetition is_pause List.length];
    lia.
Qed.

(** ** Binary64 facts *)

Module FloatFacts.

Import SF.

Lemma Prim2SF_zero : Prim2SF 0%float = S754_zero false.
Proof. vm_compute. reflexivity. Qed.

Lemma float_of_int_0 : PyNum.float_of_int 0 = 0%float.
Proof. vm_compute. reflexivity. Qed.

Lemma ltb_zero_positive (d : float) :
  (0 <? d)%float = sf_positive (Prim2SF d).
Proof.
  rewrite FloatAxioms.ltb_spec, Prim2SF_zero.
  destruct (Prim2SF d) as [[|]|[|]| |[|] m e]; reflexivity.
Qed.

Lemma eqb_zero_positive (d : float) :
  sf_positive (Prim2SF d) = true -> (d =? 0)%float = false.
Proof.
  rewrite FloatAxioms.eqb_spec, Prim2SF_zero.
  destruct (Prim2SF d) as [[|]|[|]| |[|] m e]; cbn; congruence.
Qed.

Lemma leb_zero_plus (d : float) :
  sf_plus (Prim2SF d) = true -> (0 <=? d)%float = true.
Proof.
  rewrite FloatAxioms.leb_spec, Prim2SF_zero.
  destruct (Prim2SF d) as [[|]|[|]| |[|] m e]; cbn; congruence.
Qed.

Lemma positive_plus (x : spec_float) :
  sf_positive x = true -> sf_plus x = true.
Proof. destruct x as [[|]|[|]| |[|] m e]; cbn; congruence. Qed.

End FloatFacts.

(** ** [analyze_fluency] raises nothing *)

(** A division by a number above zero does not raise. *)
Lemma truediv_gt_zero (x y : number) :
  PyNum.gt y (Int 0) = true ->
  PyNum.truediv x y = Ok (Float (PyNum.to_float x / PyNum.to_float y)).
Proof.
  destruct y as [b|g]; cbn [PyNum.gt PyNum.truediv PyNum.to_float].
  - intros H. apply Z.ltb_lt in H.
    destruct (Z.eqb_spec b 0) as [->|_]; [lia | reflexivity].
  - rewrite FloatFacts.float_of_int_0, FloatFacts.ltb_zero_positive.
    intros H. now rewrite (FloatFacts.eqb_zero_positive g H).
Qed.

(** A division by the length of a list that is not empty does not
    raise. *)
Lemma truediv_len {A : Type} (x : number) (a : A) (l : list A) :
  PyNum.truediv x (Int (PyNum.len (a :: l))) =
  Ok (Float (PyNum.to_float x / PyNum.float_of_int (PyNum.len (a :: l)))).
Proof.
  unfold PyNum.truediv.
  destruct (Z.eqb_spec (PyNum.len (a :: l)) 0) as [E|_]; [|reflexivity].
  unfold PyNum.len in E. cbn [List.length] in E. lia.
Qed.

Lemma analyze_fluency_returns (result : transcription) :
  analyze_fluency result = Ok (log_of result, metrics_of result).
Proof.
  unfold analyze_fluency, log_of, metrics_of, speech_rate_of, avg_pause_of.
  destruct (PyNum.gt (duration result) (Int 0)) eqn:Hd.
  - rewrite (truediv_gt_zero _ _ Hd). cbn [bind PyNum.to_float].
    destruct (pauses (run_loop (words result))) as [|p ps];
      [reflexivity | now rewrite truediv_len].
  - cbn [bind].
    destruct (pauses (run_loop (words result))) as [|p ps];
      [reflexivity | now rewrite truediv_len].
Qed.

(** ** The shape of the log *)

Lemma annotations_of_word (prev : option word_rec) (st : loop_state)
                          (w : word_rec) :
  tracks prev st ->
  Forall (annotates prev w)
    (filler_entries (normalize (w_word w))
     ++ repetition_entries (prev_word st) (normalize (w_word w))
     ++ map PauseDetected (pause_values (prev_end st) (w_start w))).
Proof.
  intros [Hw He].
  unfold filler_entries, repetition_entries, pause_values.
  rewrite Hw, He.
  apply Forall_app; split; [|apply Forall_app; split].
  - destruct (in_FILLERS _) eqn:E; constructor; [|constructor].
    split; [reflexivity | exact E].
  - destruct prev as [pw|]; cbn [option_map repeats]; [|constructor].
    destruct (PyStr.truthy _ && _) eqn:E; constructor; [|constructor].
    apply andb_true_iff in E. destruct E as [_ E].
    apply String.eqb_eq in E.
    split; [reflexivity | exists pw; auto].
  - destruct prev as [pw|]; cbn [option_map map]; [|constructor].
    destruct (pause_threshold <? _)%float eqn:E; cbn [map];
      constructor; [|constructor].
    exists pw. auto.
Qed.

Lemma attached_fold (ws : list word_rec) :
  forall (prev : option word_rec) (st : loop_state),
    tracks prev st ->
    exists tail,
      transcript_log (fold_left loop_body ws st) = transcript_log st ++ tail
      /\ attached prev ws tail.
Proof.
  induction ws as [|w ws IH]; intros prev st Ht; cbn [fold_left].
  - exists []. split; [now rewrite app_nil_r | constructor].
  - destruct (IH (Some w) (loop_body st w) (tracks_loop_body st w))
      as (tail & Hlog & Hatt).
    rewrite Hlog, loop_body_log.
    eexists. split.
    + rewrite <- !app_assoc. reflexivity.
    + rewrite !app_assoc. rewrite <- app_assoc with (n := tail).
      cbn [app]. constructor; [|exact Hatt].
      rewrite <- !app_assoc. now apply annotations_of_word.
Qed.

Lemma attached_run_loop (ws : list word_rec) :
  attached None ws (transcript_log (run_loop ws)).
Proof.
  destruct (attached_fold ws None init_state tracks_init) as (tail & E & H).
  unfold run_loop. rewrite E. exact H.
Qed.

(** C1. For every transcription, [analyze_fluency] returns a log whose
    length is the number of input words plus the numbers of its filler,
    repetition and pause entries; the log goes through the words in their
    input order, and the annotations of a word come right before the
    word's own entry. *)
Theorem log_length_and_attachment (result : transcription) :
  exists log m,
    analyze_fluency result = Ok (log, m)
    /\ PyNum.len log =
       (PyNum.len (words result) + count is_filler log
        + count is_repetition log + count is_pause log)%Z
    /\ attached None (words result) log.
Proof.
  exists (log_of result), (metrics_of result).
  split; [apply analyze_fluency_returns|]. unfold log_of. split.
  - rewrite kinds_partition. unfold count at 1.
    rewrite plain_run_loop. unfold PyNum.len. rewrite length_map. lia.
  - apply attached_run_loop.
Qed.

(** C2. For every transcription, the number of [PlainWord] entries of the
    returned log is the [total_words] metric. *)
Theorem plain_words_total_words (result : transcription) :
  exists log m,
    analyze_fluency result = Ok (log, m)
    /\ count is_plain log = Metrics.total_words m.
Proof.
  exists (log_of result), (metrics_of result).
  split; [apply analyze_fluency_returns|].
  unfold log_of, count. rewrite plain_run_loop.
  unfold PyNum.len. now rewrite length_map.
Qed.

(** ** Segments and their words *)

Lemma words_fold (segs : list segment) (acc : list word_rec) :
  fold_left
    (fun acc seg =>
       match seg_words seg with
       | Some ws => acc ++ ws
       | None => acc
       end) segs acc
  = acc ++ List.concat (map words_of_segment segs).
Proof.
  revert acc. induction segs as [|seg segs IH]; intros acc; cbn.
  - now rewrite app_nil_r.
  - rewrite IH. unfold words_of_segment.
    destruct (seg_words seg); [now rewrite app_assoc | reflexivity].
Qed.

Lemma words_concat (result : transcription) :
  words result = List.concat (map words_of_segment (segments result)).
Proof. unfold words. now rewrite words_fold. Qed.

Lemma words_empty (result : transcription) :
  Forall (fun seg => seg_words seg = None \/ seg_words seg = Some [])
         (segments result) ->
  words result = [].
Proof.
  rewrite words_concat. induction 1 as [|seg segs [H|H] _ IH]; cbn; auto;
    unfold words_of_segment; now rewrite H.
Qed.

Lemma duration_last (result : transcription) (segs : list segment)
                    (seg : segment) :
  segments result = segs ++ [seg] -> duration result = Float (seg_end seg).
Proof.
  intros E. unfold duration. rewrite E.
  destruct (segs ++ [seg]) eqn:E'; [destruct segs; discriminate|].
  rewrite <- E'. now rewrite last_last.
Qed.

(** ** Empty input *)

Lemma zero_div_positive (d : float) :
  SF.sf_positive (Prim2SF d) = true -> (0 / d = 0)%float.
Proof.
  intros H. apply Prim2SF_inj.
  rewrite FloatAxioms.div_spec, FloatFacts.Prim2SF_zero.
  destruct (Prim2SF d) as [[|]|[|]| |[|] m e]; cbn in H |- *; congruence.
Qed.

Lemma duration_cases (result : transcription) :
  duration result = Int 0 \/ exists d, duration result = Float d.
Proof.
  unfold duration. destruct (segments result); [left | right; eexists];
    reflexivity.
Qed.

Lemma speech_rate_no_words (result : transcription) :
  words result = [] -> PyNum.eq (speech_rate_of result) (Int 0) = true.
Proof.
  intros E. unfold speech_rate_of. rewrite E.
  destruct (duration_cases result) as [-> | [d ->]]; [reflexivity|].
  cbn [PyNum.gt PyNum.to_float PyNum.eq].
  change (PyNum.len (@nil word_rec)) with 0%Z.
  rewrite FloatFacts.float_of_int_0, FloatFacts.ltb_zero_positive.
  destruct (SF.sf_positive (Prim2SF d)) eqn:Hd; [|reflexivity].
  cbn [PyNum.eq PyNum.to_float].
  rewrite (zero_div_positive d Hd), FloatFacts.float_of_int_0.
  reflexivity.
Qed.

(** C3. When the transcription has no segments, or only segments without
    words, [analyze_fluency] raises nothing and returns the empty log and
    metrics that are all zero. *)
Theorem empty_input_zero_metrics (result : transcription) :
  Forall (fun seg => seg_words seg = None \/ seg_words seg = Some [])
         (segments result) ->
  exists m,
    analyze_fluency result = Ok ([], m)
    /\ Metrics.repetitions m = 0%Z
    /\ Metrics.fillers m = 0%Z
    /\ PyNum.eq (Metrics.avg_pause m) (Int 0) = true
    /\ PyNum.eq (Metrics.speech_rate m) (Int 0) = true
    /\ Metrics.total_words m = 0%Z.
Proof.
  intros H. pose proof (words_empty result H) as E.
  exists (metrics_of result). rewrite analyze_fluency_returns.
  unfold log_of, metrics_of. cbn [Metrics.repetitions Metrics.fillers
    Metrics.avg_pause Metrics.speech_rate Metrics.total_words].
  split; [now rewrite E|].
  repeat split; try (rewrite E; reflexivity).
  now apply speech_rate_no_words.
Qed.

Lemma empty_input_zero_metrics_witness :
  Forall (fun seg => seg_words seg = None \/ seg_words seg = Some [])
         [mk_segment None 2; mk_segment (Some []) 3]
  /\ exists m,
      analyze_fluency
        (mk_transcription [mk_segment None 2; mk_segment (Some []) 3])
      = Ok ([], m)
      /\ Metrics.repetitions m = 0%Z
      /\ Metrics.fillers m = 0%Z
      /\ PyNum.eq (Metrics.avg_pause m) (Int 0) = true
      /\ PyNum.eq (Metrics.speech_rate m) (Int 0) = true
      /\ Metrics.total_words m = 0%Z.
Proof.
  assert (H : Forall
                (fun seg => seg_words seg = None \/ seg_words seg = Some [])
                [mk_segment None 2; mk_segment (Some []) 3]).
  { constructor; [left; reflexivity|].
    constructor; [right; reflexivity|]. constructor. }
  split; [exact H|].
  exact (empty_input_zero_metrics
           (mk_transcription [mk_segment None 2; mk_segment (Some []) 3]) H).
Defined.

(** ** The summary metrics *)

(** C7. [analyze_fluency] raises nothing and returns: as [total_words],
    the number of input words; as [speech_rate], [total_words / duration]
    when [duration > 0] and [0] otherwise, where [duration] is the end of
    the last segment, or [0] without segments; as [avg_pause], the sum of
    the pause list over its length, or [0] when the list is empty. Ten
    words over 5.0 seconds give the rate 2.0 and no segment gives 0; the
    pauses 1.0 and 2.0 give the average 1.5 and no pause gives 0. *)
Theorem summary_metrics :
  (forall result : transcription,
      exists log m,
        analyze_fluency result = Ok (log, m)
        /\ Metrics.total_words m = Z.of_nat (List.length (words result))
        /\ (segments result = [] -> duration result = Int 0)
        /\ (forall segs seg, segments result = segs ++ [seg] ->
                             duration result = Float (seg_end seg))
        /\ Metrics.speech_rate m =
           (if PyNum.gt (duration result) (Int 0)
            then Float (PyNum.float_of_int (Metrics.total_words m)
                        / PyNum.to_float (duration result))
            else Int 0)
        /\ Metrics.avg_pause m =
           (match pauses (run_loop (words result)) with
            | [] => Int 0
            | _ :: _ =>
                Float (PyNum.to_float
                         (PyNum.sum (pauses (run_loop (words result))))
                       / PyNum.float_of_int
                           (PyNum.len (pauses (run_loop (words result)))))
            end))
  /\ (exists log m,
         analyze_fluency ten_words_five_seconds = Ok (log, m)
         /\ Metrics.total_words m = 10%Z
         /\ duration ten_words_five_seconds = Float 5
         /\ Metrics.speech_rate m = Float 2)
  /\ (exists log m,
         analyze_fluency (mk_transcription []) = Ok (log, m)
         /\ duration (mk_transcription []) = Int 0
         /\ Metrics.speech_rate m = Int 0
         /\ Metrics.avg_pause m = Int 0)
  /\ (exists log m,
         analyze_fluency two_pauses = Ok (log, m)
         /\ pauses (run_loop (words two_pauses)) = [1; 2]%float
         /\ Metrics.avg_pause m = Float 1.5).
Proof.
  split; [|split; [|split]].
  - intros result. exists (log_of result), (metrics_of result).
    split; [apply analyze_fluency_returns|].
    split; [reflexivity|].
    split; [intros E; unfold duration; now rewrite E|].
    split; [apply duration_last|].
    split; reflexivity.
  - eexists _, _. split; [vm_compute; reflexivity|]. cbn.
    repeat split; vm_compute; reflexivity.
  - eexists _, _. split; [vm_compute; reflexivity|]. cbn.
    repeat split; vm_compute; reflexivity.
  - eexists _, _. split; [vm_compute; reflexivity|]. cbn.
    repeat split; vm_compute; reflexivity.
Qed.

(** ** Pauses *)

Lemma In_pause_filler (p : float) (word : string) :
  ~ In (PauseDetected p) (filler_entries word).
Proof.
  unfold filler_entries. destruct (in_FILLERS word); cbn;
    [intros [H|[]]; discriminate | tauto].
Qed.

Lemma In_pause_repetition (p : float) (prev : option string)
                          (word : string) :
  ~ In (PauseDetected p) (repetition_entries prev word).
Proof.
  unfold repetition_entries. destruct (repeats prev word); cbn;
    [intros [H|[]]; discriminate | tauto].
Qed.

Lemma In_pause_values (p : float) (prev : option float) (start : float) :
  In p (pause_values prev start) <->
  exists pe, prev = Some pe /\ p = (start - pe)%float
             /\ (pause_threshold <? p)%float = true.
Proof.
  unfold pause_values. destruct prev as [pe|].
  - destruct (pause_threshold <? start - pe)%float eqn:E; cbn [In]; split.
    + intros [<-|[]]. exists pe. auto.
    + intros (pe' & [= <-] & -> & _). auto.
    + intros [].
    + intros (pe' & [= <-] & -> & H). congruence.
  - split; [intros [] | intros (pe & [=] & _)].
Qed.

Lemma In_pause_new_entries (st : loop_state) (w : word_rec) (p : float) :
  In (PauseDetected p) (new_entries st w) <->
  exists pe, prev_end st = Some pe /\ p = (w_start w - pe)%float
             /\ (pause_threshold <? p)%float = true.
Proof.
  rewrite new_entries_eq, !in_app_iff, <- In_pause_values. split.
  - intros [H|[H|[H|H]]].
    + now apply In_pause_filler in H.
    + now apply In_pause_repetition in H.
    + apply in_map_iff in H. destruct H as (q & [= ->] & H). exact H.
    + destruct H as [H|[]]. discriminate.
  - intros H. right. right. left. now apply in_map.
Qed.

(** C6. A pause entry is appended for a word if and only if a previous
    word exists and the start of the word minus the end of the previous
    word is strictly above 0.7; the entry carries that difference. A gap
    of exactly 0.7 gives no pause entry, a gap of 0.71 gives one. *)
Theorem pause_iff_gap_above_threshold :
  (forall (ws : list word_rec) (w : word_rec) (p : float),
      In (PauseDetected p) (new_entries (run_loop ws) w) <->
      exists pw, last_word ws = Some pw
                 /\ p = (w_start w - w_end pw)%float
                 /\ (0.7 <? p)%float = true)
  /\ (0.7 - 0 = 0.7)%float
  /\ analyze_fluency
       (mk_transcription
          [mk_segment (Some [mk_word "a" 0 0; mk_word "b" 0.7 1]) 1])
     = Ok ([PlainWord "a"; PlainWord "b"],
           Metrics.mk 0 0 (Int 0) (Float 2) 2)
  /\ (0.71 - 0 = 0.71)%float
  /\ analyze_fluency
       (mk_transcription
          [mk_segment (Some [mk_word "a" 0 0; mk_word "b" 0.71 1]) 1])
     = Ok ([PlainWord "a"; PauseDetected 0.71; PlainWord "b"],
           Metrics.mk 0 0 (Float 0.71) (Float 2) 2).
Proof.
  split; [|repeat split; vm_compute; reflexivity].
  intros ws w p. rewrite In_pause_new_entries.
  destruct (tracks_run_loop ws) as [_ He]. rewrite He.
  change 0.7%float with pause_threshold.
  destruct (last_word ws) as [pw|]; cbn [option_map]; split.
  - intros (pe & [= <-] & H). exists pw. auto.
  - intros (pw' & [= <-] & H). exists (w_end pw). auto.
  - intros (pe & [=] & _).
  - intros (pw & [=] & _).
Qed.

(** The gap is the binary64 difference of the two time stamps: from the
    end 0.1 to the start 0.8 it is the number next above 0.7, and a pause
    entry is appended. *)
Remark gap_is_the_rounded_difference :
  (0.7 <? 0.8 - 0.1)%float = true
  /\ new_entries (run_loop [mk_word "a" 0 0.1]) (mk_word "b" 0.8 1)
     = [PauseDetected (0.8 - 0.1); PlainWord "b"].
Proof. split; vm_compute; reflexivity. Qed.

(** ** Repetitions *)

Lemma filter_repetition_new_entries (st : loop_state) (w : word_rec) :
  filter is_repetition (new_entries st w) =
  repetition_entries (prev_word st) (normalize (w_word w)).
Proof.
  rewrite new_entries_eq, !filter_app.
  unfold filler_entries, repetition_entries.
  destruct (in_FILLERS _), (repeats _ _); cbn;
    induction (pause_values _ _); cbn; auto.
Qed.

Lemma filter_filler_new_entries (st : loop_state) (w : word_rec) :
  filter is_filler (new_entries st w) =
  filler_entries (normalize (w_word w)).
Proof.
  rewrite new_entries_eq, !filter_app.
  unfold filler_entries, repetition_entries.
  destruct (in_FILLERS _), (repeats _ _); cbn;
    induction (pause_values _ _); cbn; auto.
Qed.

Lemma repeats_true_iff (prev : option string) (word : string) :
  repeats prev word = true <->
  prev = Some word /\ word <> EmptyString.
Proof.
  unfold repeats. destruct prev as [p|]; [|split; [|intros [? _]];
                                            discriminate].
  rewrite andb_true_iff, String.eqb_eq. split.
  - intros [Ht ->]. split; [reflexivity|]. intros ->. discriminate.
  - intros [[= ->] Hne]. split; [|reflexivity].
    destruct word; [contradiction | reflexivity].
Qed.

Lemma repeats_run_loop (ws : list word_rec) (w : word_rec) :
  repeats (prev_word (run_loop ws)) (normalize (w_word w)) = true <->
  repeats_previous ws w.
Proof.
  rewrite repeats_true_iff. destruct (tracks_run_loop ws) as [Hw _].
  rewrite Hw. unfold repeats_previous.
  destruct (last_word ws) as [pw|]; cbn [option_map]; split.
  - intros [[= E] Hne]. exists pw. auto.
  - intros (pw' & [= <-] & E & Hne). split; [now rewrite E | exact Hne].
  - intros [[=] _].
  - intros (pw & [=] & _).
Qed.

(** The claim C4 as it is worded fails: a word whose normalized text is
    empty, after a word whose normalized text is empty too, has its
    previous word set and equal to its own text, and yet no repetition
    entry is appended and the repetition count stays as it is. *)
Lemma repetition_of_empty_word_not_detected :
  prev_word (run_loop [mk_word "" 0 0.1])
  = Some (normalize (w_word (mk_word " " 0.1 0.2)))
  /\ new_entries (run_loop [mk_word "" 0 0.1]) (mk_word " " 0.1 0.2)
     = [PlainWord ""]
  /\ repetitions (loop_body (run_loop [mk_word "" 0 0.1])
                            (mk_word " " 0.1 0.2))
     = repetitions (run_loop [mk_word "" 0 0.1])
  /\ analyze_fluency
       (mk_transcription
          [mk_segment (Some [mk_word "" 0 0.1; mk_word " " 0.1 0.2]) 0.2])
     = Ok ([PlainWord ""; PlainWord ""],
           Metrics.mk 0 0 (Int 0) (Float 10) 2).
Proof. repeat split; vm_compute; reflexivity. Qed.

(** C4, amended. A word is compared with the word right before it only:
    when that word exists, has the same normalized text, and the text is
    not empty, one repetition entry is appended and the repetition count
    grows by one; otherwise no repetition entry is appended and the count
    stays. The words "the", "the", "the" give exactly two repetition
    entries. *)
Theorem repetition_iff_nonempty_previous :
  (forall (ws : list word_rec) (w : word_rec),
      repeats_previous ws w ->
      filter is_repetition (new_entries (run_loop ws) w)
      = [RepetitionDetected (normalize (w_word w))]
      /\ repetitions (loop_body (run_loop ws) w)
         = (repetitions (run_loop ws) + 1)%Z)
  /\ (forall (ws : list word_rec) (w : word_rec),
         ~ repeats_previous ws w ->
         filter is_repetition (new_entries (run_loop ws) w) = []
         /\ repetitions (loop_body (run_loop ws) w)
            = repetitions (run_loop ws))
  /\ analyze_fluency
       (mk_transcription
          [mk_segment
             (Some [mk_word "the" 0 0.2; mk_word "the" 0.2 0.4;
                    mk_word "the" 0.4 0.6]) 1])
     = Ok ([PlainWord "the"; RepetitionDetected "the"; PlainWord "the";
            RepetitionDetected "the"; PlainWord "the"],
           Metrics.mk 2 0 (Int 0) (Float 3) 3).
Proof.
  split; [|split; [|vm_compute; reflexivity]].
  - intros ws w H. apply repeats_run_loop in H.
    rewrite filter_repetition_new_entries, loop_body_repetitions.
    unfold repetition_entries. now rewrite H.
  - intros ws w H.
    rewrite filter_repetition_new_entries, loop_body_repetitions.
    unfold repetition_entries.
    destruct (repeats _ _) eqn:E.
    + apply repeats_run_loop in E. contradiction.
    + split; [reflexivity | lia].
Qed.

(** C10. A word whose normalized text is empty appends no repetition
    entry and no filler entry, and leaves both counts as they are,
    whatever the previous word is, the empty text included. *)
Theorem empty_word_no_repetition_no_filler
        (st : loop_state) (w : word_rec) :
  normalize (w_word w) = EmptyString ->
  filter is_repetition (new_entries st w) = []
  /\ filter is_filler (new_entries st w) = []
  /\ repetitions (loop_body st w) = repetitions st
  /\ filler_count (loop_body st w) = filler_count st.
Proof.
  intros E.
  rewrite filter_repetition_new_entries, filter_filler_new_entries,
    loop_body_repetitions, loop_body_filler_count, E.
  unfold repetition_entries, filler_entries.
  assert (Hr : repeats (prev_word st) EmptyString = false).
  { unfold repeats. destruct (prev_word st) as [[|c p]|]; reflexivity. }
  rewrite Hr. change (in_FILLERS EmptyString) with false.
  repeat split; lia.
Qed.

Lemma empty_word_no_repetition_no_filler_witness :
  normalize (w_word (mk_word " " 0.1 0.2)) = EmptyString
  /\ filter is_repetition
       (new_entries (run_loop [mk_word "" 0 0.1]) (mk_word " " 0.1 0.2))
     = []
  /\ filter is_filler
       (new_entries (run_loop [mk_word "" 0 0.1]) (mk_word " " 0.1 0.2))
     = []
  /\ repetitions (loop_body (run_loop [mk_word "" 0 0.1])
                            (mk_word " " 0.1 0.2))
     = repetitions (run_loop [mk_word "" 0 0.1])
  /\ filler_count (loop_body (run_loop [mk_word "" 0 0.1])
                             (mk_word " " 0.1 0.2))
     = filler_count (run_loop [mk_word "" 0 0.1]).
Proof.
  split; [reflexivity|].
  apply (empty_word_no_repetition_no_filler
           (run_loop [mk_word "" 0 0.1]) (mk_word " " 0.1 0.2)).
  reflexivity.
Defined.

(** ** Fillers: letter case and surrounding white space *)

Lemma isspace_lower_char (c : ascii) :
  PyStr.isspace (PyStr.lower_char c) = PyStr.isspace c.
Proof. destruct c as [[] [] [] [] [] [] [] []]; reflexivity. Qed.

Lemma lower_append (s t : string) :
  PyStr.lower (s ++ t) = (PyStr.lower s ++ PyStr.lower t)%string.
Proof. induction s as [|c s IH]; cbn; congruence. Qed.

Lemma blank_lower (s : string) :
  PyStr.blank (PyStr.lower s) = PyStr.blank s.
Proof.
  induction s as [|c s IH]; cbn; [reflexivity|].
  now rewrite isspace_lower_char, IH.
Qed.

Lemma caseless_eq_lower (s t : string) :
  PyStr.caseless_eq s t = true -> PyStr.lower s = PyStr.lower t.
Proof.
  revert t. induction s as [|c s IH]; intros [|d t]; cbn;
    try discriminate; [reflexivity|].
  intros H. apply andb_true_iff in H. destruct H as [Hc Hs].
  apply Ascii.eqb_eq in Hc. now rewrite Hc, (IH t Hs).
Qed.

Lemma lstrip_blank_append (pre s : string) :
  PyStr.blank pre = true -> PyStr.lstrip (pre ++ s) = PyStr.lstrip s.
Proof.
  induction pre as [|c pre IH]; cbn; [reflexivity|].
  intros H. apply andb_true_iff in H. destruct H as [Hc Hp].
  rewrite Hc. now apply IH.
Qed.

Lemma lstrip_blank (s : string) :
  PyStr.blank s = true -> PyStr.lstrip s = EmptyString.
Proof.
  induction s as [|c s IH]; cbn; [reflexivity|].
  intros H. apply andb_true_iff in H. destruct H as [Hc Hs].
  rewrite Hc. now apply IH.
Qed.

Lemma rstrip_blank (s : string) :
  PyStr.blank s = true -> PyStr.rstrip s = EmptyString.
Proof.
  induction s as [|c s IH]; cbn; [reflexivity|].
  intros H. apply andb_true_iff in H. destruct H as [Hc Hs].
  now rewrite (IH Hs), Hc.
Qed.

Lemma rstrip_append_blank (s post : string) :
  PyStr.blank post = true -> PyStr.rstrip (s ++ post) = PyStr.rstrip s.
Proof.
  intros H. induction s as [|c s IH]; cbn.
  - now apply rstrip_blank.
  - now rewrite IH.
Qed.

Lemma strip_append_blank (s post : string) :
  PyStr.blank post = true -> PyStr.strip (s ++ post) = PyStr.strip s.
Proof.
  intros H. unfold PyStr.strip. induction s as [|c s IH]; cbn.
  - now rewrite (lstrip_blank post H).
  - destruct (PyStr.isspace c); [exact IH|].
    exact (rstrip_append_blank (String c s) post H).
Qed.

Lemma normalize_padded (pre w post : string) :
  PyStr.blank pre = true -> PyStr.blank post = true ->
  normalize (pre ++ w ++ post) = normalize w.
Proof.
  intros Hpre Hpost. unfold normalize, PyStr.strip.
  rewrite !lower_append, lstrip_blank_append by now rewrite blank_lower.
  apply strip_append_blank. now rewrite blank_lower.
Qed.

Lemma in_FILLERS_In (word : string) :
  in_FILLERS word = true <-> In word FILLERS.
Proof.
  unfold in_FILLERS. rewrite existsb_exists. split.
  - intros (x & Hx & E). apply String.eqb_eq in E. now subst.
  - intros H. exists word. split; [exact H | apply String.eqb_refl].
Qed.

(** C5. A word yields a filler entry exactly when its lower-cased,
    stripped text is one of "um", "uh", "erm", "hmm", "you know", "like";
    so two words that differ in the case of their letters only, or in
    white space around them only, are classified alike, as are " Um " and
    "um". *)
Theorem filler_detection_case_and_space_insensitive :
  FILLERS = ["um"; "uh"; "erm"; "hmm"; "you know"; "like"]%string
  /\ (forall (st : loop_state) (w : word_rec),
         (In (PyStr.strip (PyStr.lower (w_word w))) FILLERS ->
          filter is_filler (new_entries st w)
          = [FillerDetected (PyStr.strip (PyStr.lower (w_word w)))]
          /\ filler_count (loop_body st w) = (filler_count st + 1)%Z)
         /\ (~ In (PyStr.strip (PyStr.lower (w_word w))) FILLERS ->
             filter is_filler (new_entries st w) = []
             /\ filler_count (loop_body st w) = filler_count st))
  /\ (forall s t : string,
         PyStr.caseless_eq s t = true ->
         in_FILLERS (normalize s) = in_FILLERS (normalize t))
  /\ (forall pre s post : string,
         PyStr.blank pre = true -> PyStr.blank post = true ->
         in_FILLERS (normalize (pre ++ s ++ post))
         = in_FILLERS (normalize s))
  /\ normalize " Um " = normalize "um"
  /\ new_entries init_state (mk_word " Um " 0 0.3)
     = [FillerDetected "um"; PlainWord "um"]
  /\ new_entries init_state (mk_word "um" 0 0.3)
     = [FillerDetected "um"; PlainWord "um"].
Proof.
  split; [reflexivity|].
  split; [|split; [|split; [|repeat split; vm_compute; reflexivity]]].
  - intros st w.
    rewrite filter_filler_new_entries, loop_body_filler_count.
    unfold filler_entries. fold (normalize (w_word w)).
    rewrite <- in_FILLERS_In.
    destruct (in_FILLERS (normalize (w_word w))); split; intros H;
      try congruence; (split; [reflexivity | lia]).
  - intros s t H. unfold normalize. now rewrite (caseless_eq_lower s t H).
  - intros pre s post Hpre Hpost. now rewrite normalize_padded.
Qed.

(** ** Segments without a ["words"] key *)

Lemma words_of_wordless (seg : segment) :
  has_words seg = false -> words_of_segment seg = [].
Proof.
  unfold has_words, words_of_segment.
  destruct (seg_words seg); [discriminate | reflexivity].
Qed.

Lemma words_without_wordless (segs : list segment) :
  words (mk_transcription (filter has_words segs))
  = words (mk_transcription segs).
Proof.
  rewrite !words_concat. cbn [segments].
  induction segs as [|seg segs IH]; cbn [filter map List.concat];
    [reflexivity|].
  destruct (has_words seg) eqn:E; cbn [map List.concat].
  - now rewrite IH.
  - now rewrite (words_of_wordless seg E), IH.
Qed.

Lemma words_with_empty_words (segs : list segment) :
  words (mk_transcription (map with_empty_words segs))
  = words (mk_transcription segs).
Proof.
  rewrite !words_concat. cbn [segments]. rewrite map_map. f_equal.
  apply map_ext. intros seg. unfold with_empty_words, words_of_segment.
  destruct (seg_words seg) as [ws|] eqn:E; cbn; now rewrite ?E.
Qed.

Lemma seg_end_with_empty_words (seg : segment) :
  seg_end (with_empty_words seg) = seg_end seg.
Proof. unfold with_empty_words. now destruct (seg_words seg). Qed.

Lemma duration_with_empty_words (segs : list segment) :
  duration (mk_transcription (map with_empty_words segs))
  = duration (mk_transcription segs).
Proof.
  destruct segs as [|seg segs] using rev_ind; [reflexivity|].
  rewrite map_app. cbn [map].
  rewrite (duration_last (mk_transcription (segs ++ [seg])) segs seg)
    by reflexivity.
  rewrite (duration_last _ (map with_empty_words segs)
                         (with_empty_words seg)) by reflexivity.
  now rewrite seg_end_with_empty_words.
Qed.

(** The result depends on the segments through their words and the
    duration only. *)
Lemma analyze_fluency_ext (r1 r2 : transcription) :
  words r1 = words r2 -> duration r1 = duration r2 ->
  analyze_fluency r1 = analyze_fluency r2.
Proof.
  intros Hw Hd. unfold analyze_fluency. now rewrite Hw, Hd.
Qed.

(** C9. A segment without a ["words"] key raises nothing and contributes
    no word: [analyze_fluency] returns, and returns the same as when every
    such segment has an empty word list instead; the words it goes
    through, and with them the log and the metrics other than the speech
    rate, are those of the segments that have the key. *)
Theorem wordless_segments_contribute_nothing (result : transcription) :
  (exists log m, analyze_fluency result = Ok (log, m))
  /\ analyze_fluency
       (mk_transcription (map with_empty_words (segments result)))
     = analyze_fluency result
  /\ words result
     = words (mk_transcription (filter has_words (segments result)))
  /\ (forall segs1 seg segs2,
         segments result = segs1 ++ seg :: segs2 ->
         seg_words seg = None ->
         words result = words (mk_transcription (segs1 ++ segs2)))
  /\ (exists log m m',
         analyze_fluency result = Ok (log, m)
         /\ analyze_fluency
              (mk_transcription (filter has_words (segments result)))
            = Ok (log, m')
         /\ Metrics.repetitions m' = Metrics.repetitions m
         /\ Metrics.fillers m' = Metrics.fillers m
         /\ Metrics.avg_pause m' = Metrics.avg_pause m
         /\ Metrics.total_words m' = Metrics.total_words m).
Proof.
  destruct result as [segs]. cbn [segments].
  split; [eexists _, _; apply analyze_fluency_returns|].
  split; [apply analyze_fluency_ext;
          [apply words_with_empty_words | apply duration_with_empty_words]|].
  split; [symmetry; apply words_without_wordless|].
  split.
  - intros segs1 seg segs2 -> H. rewrite !words_concat. cbn [segments].
    rewrite !map_app, !concat_app. cbn [map List.concat].
    unfold words_of_segment at 2. now rewrite H.
  - exists (log_of (mk_transcription segs)),
      (metrics_of (mk_transcription segs)),
      (metrics_of (mk_transcription (filter has_words segs))).
    rewrite !analyze_fluency_returns.
    unfold log_of, metrics_of. rewrite words_without_wordless.
    repeat split.
Qed.

(** ** Rounding in binary64

    The sign and the class of what the IEEE operations return, from
    their specification: rounding a mantissa that is not negative never
    gives a NaN or a negative number, rounding a positive mantissa at an
    exponent a valid number can have never gives zero, and an integer
    below [2^63] converts to a finite number. *)

Module Rounding.

Import SF FloatFacts.
Local Open Scope Z_scope.

Lemma digits2_pos_bounds (p : positive) :
  2 ^ (Zpos (digits2_pos p) - 1) <= Zpos p < 2 ^ Zpos (digits2_pos p).
Proof.
  induction p as [p IH|p IH|]; cbn [digits2_pos].
  - rewrite Pos2Z.inj_succ.
    replace (Z.succ (Zpos (digits2_pos p)) - 1)
      with (Z.succ (Zpos (digits2_pos p) - 1)) by lia.
    rewrite !Z.pow_succ_r by lia. lia.
  - rewrite Pos2Z.inj_succ.
    replace (Z.succ (Zpos (digits2_pos p)) - 1)
      with (Z.succ (Zpos (digits2_pos p) - 1)) by lia.
    rewrite !Z.pow_succ_r by lia. lia.
  - cbn. lia.
Qed.

Lemma Zdigits2_le (m k : Z) : 0 <= k -> 0 <= m < 2 ^ k -> Zdigits2 m <= k.
Proof.
  intros Hk [H0 H]. destruct m as [|p|p]; cbn [Zdigits2]; try lia.
  pose proof (digits2_pos_bounds p) as [Hlo _].
  assert (2 ^ (Zpos (digits2_pos p) - 1) < 2 ^ k) by lia.
  apply Z.pow_lt_mono_r_iff in H1; lia.
Qed.

Lemma Zdigits2_lower (m : Z) : 0 < m -> 2 ^ (Zdigits2 m - 1) <= m.
Proof.
  destruct m as [|p|p]; try lia. intros _. apply digits2_pos_bounds.
Qed.

Lemma shr_1_m (r : shr_record) :
  0 <= shr_m r -> shr_m (shr_1 r) = shr_m r / 2.
Proof.
  destruct r as [m rb sb]. cbn [shr_m shr_1].
  destruct m as [|[p|p|]|p]; cbn [shr_m]; intros H;
    [reflexivity | | | reflexivity | lia].
  - rewrite Pos2Z.inj_xI. apply Z.div_unique with 1; lia.
  - rewrite Pos2Z.inj_xO. apply Z.div_unique with 0; lia.
Qed.

Lemma iter_shr_1_m (p : positive) :
  forall r : shr_record,
    0 <= shr_m r ->
    shr_m (iter_pos shr_1 p r) = shr_m r / 2 ^ Zpos p.
Proof.
  induction p as [p IH|p IH|]; intros r Hr; cbn [iter_pos].
  - assert (H1 : 0 <= shr_m (shr_1 r))
      by (rewrite shr_1_m by exact Hr; apply Z.div_pos; lia).
    assert (H2 : 0 <= shr_m (iter_pos shr_1 p (shr_1 r)))
      by (rewrite IH by exact H1; apply Z.div_pos; lia).
    rewrite IH, IH, shr_1_m by assumption.
    rewrite !Z.div_div by lia. f_equal.
    replace (Z.pos p~1) with (1 + Z.pos p + Z.pos p) by lia.
    rewrite !Z.pow_add_r by lia. rewrite Z.pow_1_r. lia.
  - assert (H2 : 0 <= shr_m (iter_pos shr_1 p r))
      by (rewrite IH by exact Hr; apply Z.div_pos; lia).
    rewrite IH, IH by assumption.
    rewrite !Z.div_div by lia. f_equal.
    replace (Z.pos p~0) with (Z.pos p + Z.pos p) by lia.
    now rewrite Z.pow_add_r by lia.
  - rewrite shr_1_m by exact Hr. now rewrite Z.pow_1_r.
Qed.

Lemma shr_record_of_loc_m (m : Z) (l : location) :
  shr_m (shr_record_of_loc m l) = m.
Proof. destruct l as [|[| |]]; reflexivity. Qed.

Lemma shr_fexp_m (m e : Z) (l : location) :
  0 <= m ->
  shr_m (fst (shr_fexp prec emax m e l))
  = (if 0 <? shift_of m e then m / 2 ^ shift_of m e else m).
Proof.
  intros Hm. unfold shr_fexp, shr. fold (shift_of m e).
  destruct (shift_of m e) as [|p|p]; cbn [fst Z.ltb Z.compare].
  - apply shr_record_of_loc_m.
  - rewrite iter_shr_1_m; now rewrite shr_record_of_loc_m.
  - apply shr_record_of_loc_m.
Qed.

Lemma shr_fexp_e (m e : Z) (l : location) :
  snd (shr_fexp prec emax m e l) = Z.max e (fexp prec emax (Zdigits2 m + e)).
Proof.
  unfold shr_fexp, shr.
  generalize (fexp prec emax (Zdigits2 m + e)). intros f.
  destruct (f - e) as [|p|p] eqn:E; cbn [snd]; lia.
Qed.

Lemma shr_fexp_m_nonneg (m e : Z) (l : location) :
  0 <= m -> 0 <= shr_m (fst (shr_fexp prec emax m e l)).
Proof.
  intros Hm. rewrite shr_fexp_m by exact Hm.
  destruct (0 <? shift_of m e) eqn:E; [|exact Hm].
  apply Z.ltb_lt in E.
  apply Z.div_pos; [lia | apply Z.pow_pos_nonneg; lia].
Qed.

Lemma shr_fexp_m_le (m e : Z) (l : location) :
  0 <= m -> shr_m (fst (shr_fexp prec emax m e l)) <= m.
Proof.
  intros Hm. rewrite shr_fexp_m by exact Hm.
  destruct (0 <? shift_of m e) eqn:E; [|lia].
  apply Z.ltb_lt in E.
  apply Z.div_le_upper_bound; [lia|].
  assert (1 <= 2 ^ shift_of m e) by (apply Z.pow_le_mono_r with (b := 0); lia).
  nia.
Qed.

Lemma shr_fexp_m_pos (m e : Z) (l : location) :
  0 < m -> SpecFloat.emin prec emax <= e ->
  0 < shr_m (fst (shr_fexp prec emax m e l)).
Proof.
  intros Hm He. rewrite shr_fexp_m by lia.
  destruct (0 <? shift_of m e) eqn:E; [|exact Hm].
  apply Z.ltb_lt in E.
  assert (Hn : shift_of m e <= Zdigits2 m - 1).
  { unfold shift_of, fexp, SpecFloat.emin, prec, emax in *. lia. }
  pose proof (Zdigits2_lower m Hm) as Hlo.
  assert (2 ^ shift_of m e <= 2 ^ (Zdigits2 m - 1))
    by (apply Z.pow_le_mono_r; lia).
  apply Z.lt_le_trans with 1; [lia|].
  apply Z.div_le_lower_bound; lia.
Qed.

Lemma round_nearest_even_bounds (m : Z) (l : location) :
  m <= round_nearest_even m l <= m + 1.
Proof.
  unfold round_nearest_even.
  destruct l as [|[| |]]; try destruct (Z.even m); lia.
Qed.

Lemma binary_round_aux_plus (mx ex : Z) (lx : location) :
  0 <= mx -> sf_plus (binary_round_aux prec emax false mx ex lx) = true.
Proof.
  intros Hm. unfold binary_round_aux.
  pose proof (shr_fexp_m_nonneg mx ex lx Hm) as H1.
  destruct (shr_fexp prec emax mx ex lx) as [mrs' e']. cbn [fst] in H1.
  pose proof (round_nearest_even_bounds (shr_m mrs')
                (loc_of_shr_record mrs')) as Hr.
  assert (H2 : 0 <= round_nearest_even (shr_m mrs') (loc_of_shr_record mrs'))
    by lia.
  pose proof (shr_fexp_m_nonneg _ e' loc_Exact H2) as H3.
  destruct (shr_fexp prec emax _ e' loc_Exact) as [mrs'' e''].
  cbn [fst] in H3.
  destruct (shr_m mrs'') as [|p|p]; [reflexivity | | lia].
  destruct (e'' <=? emax - prec); reflexivity.
Qed.

Lemma binary_round_aux_positive (mx ex : Z) (lx : location) :
  0 < mx -> SpecFloat.emin prec emax <= ex ->
  sf_positive (binary_round_aux prec emax false mx ex lx) = true.
Proof.
  intros Hm He. unfold binary_round_aux.
  pose proof (shr_fexp_m_pos mx ex lx Hm He) as H1.
  pose proof (shr_fexp_e mx ex lx) as E1.
  destruct (shr_fexp prec emax mx ex lx) as [mrs' e'].
  cbn [fst snd] in H1, E1.
  pose proof (round_nearest_even_bounds (shr_m mrs')
                (loc_of_shr_record mrs')) as Hr.
  assert (H2 : 0 < round_nearest_even (shr_m mrs') (loc_of_shr_record mrs'))
    by lia.
  assert (He' : SpecFloat.emin prec emax <= e') by lia.
  pose proof (shr_fexp_m_pos _ e' loc_Exact H2 He') as H3.
  destruct (shr_fexp prec emax _ e' loc_Exact) as [mrs'' e''].
  cbn [fst] in H3.
  destruct (shr_m mrs'') as [|p|p]; [lia | | lia].
  destruct (e'' <=? emax - prec); reflexivity.
Qed.

Lemma shl_align_e (m : positive) (e e' : Z) :
  snd (shl_align m e e') = Z.min e e'.
Proof.
  unfold shl_align. destruct (e' - e) as [|d|d] eqn:E; cbn [snd]; lia.
Qed.

Lemma binary_round_positive (m : positive) (e : Z) :
  SpecFloat.emin prec emax <= e ->
  sf_positive (binary_round prec emax false m e) = true.
Proof.
  intros He. unfold binary_round.
  pose proof (shl_align_e m e (fexp prec emax (Zpos (digits2_pos m) + e)))
    as E.
  destruct (shl_align m e _) as [mz ez]. cbn [snd] in E.
  apply binary_round_aux_positive; [lia|].
  unfold fexp, SpecFloat.emin, prec, emax in *. lia.
Qed.

Lemma valid_emin (s : bool) (m : positive) (e : Z) :
  valid_binary (S754_finite s m e) = true -> SpecFloat.emin prec emax <= e.
Proof.
  cbn [SpecFloat.valid_binary]. unfold bounded, canonical_mantissa.
  intros H. apply andb_true_iff in H. destruct H as [H _].
  apply Z.eqb_eq in H.
  unfold fexp, SpecFloat.emin, prec, emax in *. lia.
Qed.

Lemma SFadd_positive (x y : spec_float) :
  valid_binary x = true -> valid_binary y = true ->
  sf_plus x = true -> sf_positive y = true ->
  sf_positive (SF64add x y) = true.
Proof.
  intros Vx Vy Hx Hy.
  destruct x as [[|]|[|]| |[|] mx ex]; try discriminate;
    destruct y as [[|]|[|]| |[|] my ey]; try discriminate;
    try reflexivity.
  unfold SF64add, SFadd. cbn [cond_Zopp Z.add binary_normalize].
  apply binary_round_positive.
  apply valid_emin in Vx, Vy. lia.
Qed.

Lemma SFdiv_core_binary_nonneg (mx my : positive) (ex ey : Z) :
  0 <= fst (fst (SFdiv_core_binary prec emax (Zpos mx) ex (Zpos my) ey)).
Proof.
  unfold SFdiv_core_binary.
  set (s := ex - ey - _).
  set (m' := match s with Z0 => Zpos mx | Zpos _ => Z.shiftl (Zpos mx) s
                     | Zneg _ => 0 end).
  assert (Hm' : 0 <= m').
  { subst m'. destruct s; [lia | apply Z.shiftl_nonneg; lia | lia]. }
  pose proof (Z.div_pos m' (Zpos my) Hm' ltac:(lia)) as H.
  unfold Z.div in H.
  destruct (Z.div_eucl m' (Zpos my)) as [q r]. exact H.
Qed.

Lemma SFdiv_finite_plus (mx my : positive) (ex ey : Z) :
  sf_plus (SF64div (S754_finite false mx ex) (S754_finite false my ey))
  = true.
Proof.
  unfold SF64div, SFdiv.
  pose proof (SFdiv_core_binary_nonneg mx my ex ey) as H.
  destruct (SFdiv_core_binary prec emax (Zpos mx) ex (Zpos my) ey)
    as [[mz ez] lz].
  cbn [fst] in H. cbn [xorb]. now apply binary_round_aux_plus.
Qed.

(** A positive number over a finite number that is not negative. *)
Lemma SFdiv_positive_finite (x y : spec_float) :
  sf_positive x = true -> sf_finite_plus y = true ->
  sf_plus (SF64div x y) = true.
Proof.
  intros Hx Hy.
  destruct x as [[|]|[|]| |[|] mx ex]; try discriminate;
    destruct y as [[|]|[|]| |[|] my ey]; try discriminate;
    try reflexivity.
  apply SFdiv_finite_plus.
Qed.

(** A finite number that is not negative over a positive number. *)
Lemma SFdiv_finite_positive (x y : spec_float) :
  sf_finite_plus x = true -> sf_positive y = true ->
  sf_plus (SF64div x y) = true.
Proof.
  intros Hx Hy.
  destruct x as [[|]|[|]| |[|] mx ex]; try discriminate;
    destruct y as [[|]|[|]| |[|] my ey]; try discriminate;
    try reflexivity.
  apply SFdiv_finite_plus.
Qed.

Lemma Zpos_iter_xO (m d : positive) :
  Zpos (Pos.iter xO m d) = Zpos m * 2 ^ Zpos d.
Proof.
  rewrite (Pos.iter_swap_gen _ _ Zpos xO (Z.mul 2)) by reflexivity.
  change (Pos.iter (Z.mul 2) (Zpos m) d) with (Z.shiftl (Zpos m) (Zpos d)).
  apply Z.shiftl_mul_pow2. lia.
Qed.

Lemma binary_round_aux_finite (mx ex : Z) (lx : location) :
  0 <= mx < 2 ^ 116 -> ex <= 0 -> Zdigits2 mx + ex <= 63 ->
  sf_finite_plus (binary_round_aux prec emax false mx ex lx) = true.
Proof.
  intros Hm He Hd. unfold binary_round_aux.
  pose proof (shr_fexp_m_nonneg mx ex lx ltac:(lia)) as H1.
  pose proof (shr_fexp_m_le mx ex lx ltac:(lia)) as L1.
  pose proof (shr_fexp_e mx ex lx) as E1.
  destruct (shr_fexp prec emax mx ex lx) as [mrs' e'].
  cbn [fst snd] in H1, L1, E1.
  pose proof (round_nearest_even_bounds (shr_m mrs')
                (loc_of_shr_record mrs')) as Hr.
  set (m1 := round_nearest_even (shr_m mrs') (loc_of_shr_record mrs')) in *.
  assert (H2 : 0 <= m1) by lia.
  assert (Hd1 : Zdigits2 m1 <= 117).
  { apply Zdigits2_le; [lia|]. split; [lia|].
    change (2 ^ 117) with (2 * 2 ^ 116). lia. }
  assert (He' : e' <= 10).
  { unfold fexp, SpecFloat.emin, prec, emax in E1. lia. }
  pose proof (shr_fexp_m_nonneg m1 e' loc_Exact H2) as H3.
  pose proof (shr_fexp_e m1 e' loc_Exact) as E2.
  destruct (shr_fexp prec emax m1 e' loc_Exact) as [mrs'' e''].
  cbn [fst snd] in H3, E2.
  assert (He'' : e'' <= emax - prec).
  { unfold fexp, SpecFloat.emin, prec, emax in *. lia. }
  destruct (shr_m mrs'') as [|p|p]; [reflexivity | | lia].
  apply Z.leb_le in He''. now rewrite He''.
Qed.

Lemma binary_round_int_finite (m : positive) :
  Zpos m < 2 ^ 63 ->
  sf_finite_plus (binary_round prec emax false m 0) = true
  /\ sf_positive (binary_round prec emax false m 0) = true.
Proof.
  intros Hm. split.
  2:{ apply binary_round_positive. unfold SpecFloat.emin, prec, emax. lia. }
  unfold binary_round.
  assert (Hd : Zpos (digits2_pos m) <= 63).
  { apply (Zdigits2_le (Zpos m) 63); lia. }
  pose proof (digits2_pos_bounds m) as [_ Hup].
  unfold shl_align.
  replace (fexp prec emax (Zpos (digits2_pos m) + 0) - 0)
    with (Zpos (digits2_pos m) - 53)
    by (unfold fexp, SpecFloat.emin, prec, emax; lia).
  destruct (Zpos (digits2_pos m) - 53) as [|d|d] eqn:E.
  - apply binary_round_aux_finite; cbn [Zdigits2]; lia.
  - apply binary_round_aux_finite; cbn [Zdigits2]; lia.
  - assert (Hmz : Zpos (Pos.iter xO m d) < 2 ^ 53).
    { rewrite Zpos_iter_xO.
      replace 53 with (Zpos (digits2_pos m) + Zpos d) by lia.
      rewrite Z.pow_add_r by lia.
      apply Z.mul_lt_mono_pos_r; [apply Z.pow_pos_nonneg; lia | exact Hup]. }
    assert (Hdz : Zdigits2 (Zpos (Pos.iter xO m d)) <= 53)
      by (apply Zdigits2_le; lia).
    apply binary_round_aux_finite;
      unfold fexp, SpecFloat.emin, prec, emax; lia.
Qed.

Lemma of_uint63_class (n : int) :
  sf_finite_plus (Prim2SF (of_uint63 n)) = true
  /\ (0 < Uint63.to_Z n -> sf_positive (Prim2SF (of_uint63 n)) = true).
Proof.
  rewrite FloatAxioms.of_uint63_spec.
  pose proof (Uint63.to_Z_bounded n) as Hb.
  change Uint63.wB with (2 ^ 63) in Hb.
  destruct (Uint63.to_Z n) as [|p|p]; cbn [binary_normalize].
  - split; [reflexivity | lia].
  - destruct (binary_round_int_finite p ltac:(lia)). auto.
  - lia.
Qed.

Lemma float_of_int_finite (z : Z) :
  sf_finite_plus (Prim2SF (PyNum.float_of_int z)) = true.
Proof. apply of_uint63_class. Qed.

End Rounding.

(** ** No metric is negative *)

Import SF FloatFacts Rounding.

Lemma above_threshold_positive (p : float) :
  (pause_threshold <? p)%float = true -> sf_positive (Prim2SF p) = true.
Proof.
  rewrite FloatAxioms.ltb_spec.
  replace (Prim2SF pause_threshold)
    with (S754_finite false 6305039478318694 (-53))
    by (vm_compute; reflexivity).
  destruct (Prim2SF p) as [[|]|[|]| |[|] m e]; cbn; congruence.
Qed.

Lemma zero_add_positive (p : float) :
  sf_positive (Prim2SF p) = true ->
  sf_positive (Prim2SF (PyNum.float_of_int 0 + p)) = true.
Proof.
  intros H. rewrite float_of_int_0, FloatAxioms.add_spec, Prim2SF_zero.
  destruct (Prim2SF p) as [[|]|[|]| |[|] m e]; cbn in H |- *; congruence.
Qed.

Lemma add_positive (a p : float) :
  sf_positive (Prim2SF a) = true -> sf_positive (Prim2SF p) = true ->
  sf_positive (Prim2SF (a + p)) = true.
Proof.
  intros Ha Hp. rewrite FloatAxioms.add_spec.
  apply SFadd_positive; auto using Prim2SF_valid, positive_plus.
Qed.

Lemma fold_add_positive (ps : list float) (a : float) :
  Forall above_threshold ps ->
  sf_positive (Prim2SF a) = true ->
  exists s, fold_left PyNum.add (map Float ps) (Float a) = Float s
            /\ sf_positive (Prim2SF s) = true.
Proof.
  intros H. revert a. induction H as [|p ps Hp _ IH]; intros a Ha; cbn.
  - exists a. auto.
  - apply IH. apply add_positive; [exact Ha|].
    now apply above_threshold_positive.
Qed.

Lemma sum_positive (p : float) (ps : list float) :
  Forall above_threshold (p :: ps) ->
  exists s, PyNum.sum (p :: ps) = Float s
            /\ sf_positive (Prim2SF s) = true.
Proof.
  intros H. inversion H as [|? ? Hp Hps]; subst.
  unfold PyNum.sum. cbn [map fold_left PyNum.add PyNum.to_float].
  apply fold_add_positive; [exact Hps|].
  apply zero_add_positive. now apply above_threshold_positive.
Qed.

Lemma pauses_above_threshold (ws : list word_rec) :
  Forall above_threshold (pauses (run_loop ws)).
Proof.
  unfold run_loop. apply loop_invariant; [|constructor].
  intros st w H. rewrite loop_body_pauses.
  apply Forall_app. split; [exact H|].
  unfold pause_values. destruct (prev_end st) as [pe|]; [|constructor].
  destruct (pause_threshold <? w_start w - pe)%float eqn:E;
    constructor; [exact E | constructor].
Qed.

Lemma avg_pause_nonneg (ps : list float) :
  Forall above_threshold ps ->
  PyNum.ge (avg_pause_of ps) (Int 0) = true.
Proof.
  intros H. destruct ps as [|p ps]; [reflexivity|].
  unfold avg_pause_of.
  destruct (sum_positive p ps H) as (s & -> & Hs).
  cbn [PyNum.ge PyNum.to_float]. rewrite float_of_int_0.
  apply leb_zero_plus. rewrite FloatAxioms.div_spec.
  apply SFdiv_positive_finite; [exact Hs | apply float_of_int_finite].
Qed.

Lemma speech_rate_nonneg (result : transcription) :
  PyNum.ge (speech_rate_of result) (Int 0) = true.
Proof.
  unfold speech_rate_of.
  destruct (duration_cases result) as [-> | [d ->]]; [reflexivity|].
  cbn [PyNum.gt PyNum.to_float].
  rewrite float_of_int_0, ltb_zero_positive.
  destruct (sf_positive (Prim2SF d)) eqn:Hd; [|reflexivity].
  cbn [PyNum.ge PyNum.to_float]. rewrite float_of_int_0.
  apply leb_zero_plus. rewrite FloatAxioms.div_spec.
  apply SFdiv_finite_positive; [apply float_of_int_finite | exact Hd].
Qed.

(** C8. For every transcription, [analyze_fluency] returns metrics none
    of which is negative: [repetitions >= 0], [fillers >= 0],
    [avg_pause >= 0], [speech_rate >= 0] and [total_words >= 0]. *)
Theorem metrics_nonnegative (result : transcription) :
  exists log m,
    analyze_fluency result = Ok (log, m)
    /\ (0 <= Metrics.repetitions m)%Z
    /\ (0 <= Metrics.fillers m)%Z
    /\ PyNum.ge (Metrics.avg_pause m) (Int 0) = true
    /\ PyNum.ge (Metrics.speech_rate m) (Int 0) = true
    /\ (0 <= Metrics.total_words m)%Z.
Proof.
  exists (log_of result), (metrics_of result).
  split; [apply analyze_fluency_returns|].
  unfold metrics_of; cbn [Metrics.repetitions Metrics.fillers
    Metrics.avg_pause Metrics.speech_rate Metrics.total_words].
  destruct (consistent_run_loop (words result)) as (Hf & Hr & _).
  rewrite <- Hf, <- Hr.
  repeat split; try apply count_nonneg.
  - apply avg_pause_nonneg, pauses_above_threshold.
  - apply speech_rate_nonneg.
  - unfold PyNum.len. lia.
Qed.

(** * Further properties *)

(** ** How much a transcription can yield *)

Lemma length_filler_entries (word : string) :
  (List.length (filler_entries word) <= 1)%nat.
Proof. unfold filler_entries. destruct (in_FILLERS word); cbn; lia. Qed.

Lemma length_repetition_entries (prev : option string) (word : string) :
  (List.length (repetition_entries prev word) <= 1)%nat.
Proof. unfold repetition_entries. destruct (repeats prev word); cbn; lia. Qed.

Lemma length_pause_values (prev : option float) (start : float) :
  (List.length (pause_values prev start) <= 1)%nat.
Proof.
  unfold pause_values. destruct prev as [pe|]; [|cbn; lia].
  destruct (pause_threshold <? start - pe)%float; cbn; lia.
Qed.

Lemma filler_increment (word : string) :
  (if in_FILLERS word then 1 else 0)%Z
  = Z.of_nat (List.length (filler_entries word)).
Proof. unfold filler_entries. now destruct (in_FILLERS word). Qed.

Lemma repetition_increment (prev : option string) (word : string) :
  (if repeats prev word then 1 else 0)%Z
  = Z.of_nat (List.length (repetition_entries prev word)).
Proof. unfold repetition_entries. now destruct (repeats prev word). Qed.

Lemma within_bounds_run_loop (ws : list word_rec) :
  within_bounds (List.length ws) (run_loop ws).
Proof.
  induction ws as [|w ws IH] using rev_ind.
  - repeat split; cbn; lia.
  - rewrite run_loop_snoc, length_app. cbn [List.length].
    destruct IH as (Hf & Hr & Hp & Hl).
    destruct (tracks_run_loop ws) as [Hpw Hpe].
    unfold within_bounds.
    rewrite loop_body_filler_count, loop_body_repetitions, loop_body_pauses,
      loop_body_log, filler_increment, repetition_increment, Hpw, Hpe,
      !length_app, length_map.
    pose proof (length_filler_entries (normalize (w_word w))) as Lf.
    pose proof (length_repetition_entries
                  (option_map (fun w0 => normalize (w_word w0)) (last_word ws))
                  (normalize (w_word w))) as Lr.
    pose proof (length_pause_values (option_map w_end (last_word ws))
                                    (w_start w)) as Lp.
    cbn [List.length].
    destruct ws as [|v ws']; cbn [List.length last_word option_map] in *.
    + change (repetition_entries None (normalize (w_word w))) with
        (@nil log_entry) in *.
      change (pause_values None (w_start w)) with (@nil float) in *.
      cbn [List.length] in *. lia.
    + lia.
Qed.

(** X1. The fillers found are at most the words; the repetitions and the
    pauses are each at most the words but one, since the first word has
    no word before it; and the log has at most four entries a word, less
    two. *)
Theorem metrics_within_word_count (result : transcription) :
  exists log m,
    analyze_fluency result = Ok (log, m)
    /\ (Metrics.fillers m <= Metrics.total_words m)%Z
    /\ (Metrics.repetitions m <= Z.max 0 (Metrics.total_words m - 1))%Z
    /\ (count is_pause log <= Z.max 0 (Metrics.total_words m - 1))%Z
    /\ (PyNum.len log <= Z.max 0 (4 * Metrics.total_words m - 2))%Z.
Proof.
  exists (log_of result), (metrics_of result).
  split; [apply analyze_fluency_returns|].
  destruct (within_bounds_run_loop (words result)) as (Hf & Hr & Hp & Hl).
  destruct (consistent_run_loop (words result)) as (_ & _ & Hc).
  unfold log_of, metrics_of, count; cbn [Metrics.repetitions Metrics.fillers
    Metrics.total_words].
  rewrite Hc. unfold PyNum.len. rewrite length_map. lia.
Qed.

(** ** The metrics and the log agree *)

Lemma pauses_of_log_filter (log : list log_entry) :
  map PauseDetected (pauses_of_log log) = filter is_pause log.
Proof.
  induction log as [|e log IH]; [reflexivity|].
  destruct e; cbn [pauses_of_log flat_map filter is_pause app map] in *;
    fold (pauses_of_log log); congruence.
Qed.

Lemma PauseDetected_map_inj (l k : list float) :
  map PauseDetected l = map PauseDetected k -> l = k.
Proof.
  revert k. induction l as [|a l IH]; intros [|b k]; cbn; try discriminate;
    [reflexivity|].
  intros [= -> H]. f_equal. now apply IH.
Qed.

Lemma pauses_of_log_run_loop (ws : list word_rec) :
  pauses_of_log (transcript_log (run_loop ws)) = pauses (run_loop ws).
Proof.
  apply PauseDetected_map_inj. rewrite pauses_of_log_filter.
  apply consistent_run_loop.
Qed.


(** ** Only the word right before matters *)

Lemma new_entries_tracks (prev : option word_rec) (st : loop_state)
                         (w : word_rec) :
  tracks prev st ->
  new_entries st w
  = filler_entries (normalize (w_word w))
    ++ repetition_entries
         (option_map (fun v => normalize (w_word v)) prev)
         (normalize (w_word w))
    ++ map PauseDetected (pause_values (option_map w_end prev) (w_start w))
    ++ [PlainWord (normalize (w_word w))].
Proof. intros [Hw He]. now rewrite new_entries_eq, Hw, He. Qed.

Lemma log_fold_tracks (ws : list word_rec) :
  forall (prev : option word_rec) (st st' : loop_state),
    tracks prev st -> tracks prev st' ->
    skipn (List.length (transcript_log st))
          (transcript_log (fold_left loop_body ws st))
    = skipn (List.length (transcript_log st'))
            (transcript_log (fold_left loop_body ws st')).
Proof.
  induction ws as [|w ws IH]; intros prev st st' H H'; cbn [fold_left].
  - now rewrite !skipn_all.
  - pose proof (IH (Some w) (loop_body st w) (loop_body st' w)
                   (tracks_loop_body st w) (tracks_loop_body st' w)) as E.
    destruct (attached_fold ws (Some w) (loop_body st w)
                (tracks_loop_body st w)) as (t & Ht & _).
    destruct (attached_fold ws (Some w) (loop_body st' w)
                (tracks_loop_body st' w)) as (t' & Ht' & _).
    rewrite Ht, Ht' in *. rewrite !skipn_length_app in E. subst t'.
    rewrite !loop_body_new_entries, <- !app_assoc, !skipn_length_app.
    now rewrite (new_entries_tracks prev st w H),
      (new_entries_tracks prev st' w H').
Qed.

(** X3. The log of a sequence of words is the log of a first part
    followed by what the rest appends, and that depends on the first part
    through its last word only: it is the log of the last word and the
    rest, without the entries of that last word. *)
Theorem log_of_concatenation (ws1 : list word_rec) (pw : word_rec)
                             (ws2 : list word_rec) :
  transcript_log (run_loop (ws1 ++ pw :: ws2))
  = transcript_log (run_loop (ws1 ++ [pw]))
    ++ skipn (List.length (transcript_log (run_loop [pw])))
             (transcript_log (run_loop (pw :: ws2))).
Proof.
  replace (ws1 ++ pw :: ws2) with ((ws1 ++ [pw]) ++ ws2)
    by (now rewrite <- app_assoc).
  unfold run_loop at 1. rewrite fold_left_app.
  fold (run_loop (ws1 ++ [pw])).
  change (run_loop (pw :: ws2)) with (fold_left loop_body ws2 (run_loop [pw])).
  rewrite <- (log_fold_tracks ws2 (Some pw) (run_loop (ws1 ++ [pw]))
                (run_loop [pw])).
  - destruct (attached_fold ws2 (Some pw) (run_loop (ws1 ++ [pw])))
      as (t & Ht & _).
    + rewrite <- (last_word_snoc ws1 pw). apply tracks_run_loop.
    + now rewrite Ht, skipn_length_app.
  - rewrite <- (last_word_snoc ws1 pw). apply tracks_run_loop.
  - apply (tracks_run_loop [pw]).
Qed.

(** ** Segment boundaries *)

Lemma duration_app_nonempty (segs1 segs2 : list segment) (seg : segment) :
  duration (mk_transcription (segs1 ++ seg :: segs2))
  = duration (mk_transcription (seg :: segs2)).
Proof.
  destruct segs2 as [|s segs2] using rev_ind.
  - now rewrite (duration_last _ segs1 seg), (duration_last _ [] seg).
  - rewrite (duration_last _ (segs1 ++ seg :: segs2) s)
      by (cbn [segments]; now rewrite <- app_assoc).
    now rewrite (duration_last _ (seg :: segs2) s).
Qed.

(** X4. Where one segment ends and the next begins is immaterial: two
    neighbouring segments that have words give the same result as one
    segment with the words of both and the end of the second, so a
    repetition or a pause across the boundary is found as inside a
    segment. *)
Theorem segment_boundary_immaterial
        (segs1 segs2 : list segment) (ws1 ws2 : list word_rec)
        (end1 end2 : float) :
  analyze_fluency
    (mk_transcription
       (segs1 ++ mk_segment (Some ws1) end1
              :: mk_segment (Some ws2) end2 :: segs2))
  = analyze_fluency
      (mk_transcription
         (segs1 ++ mk_segment (Some (ws1 ++ ws2)) end2 :: segs2)).
Proof.
  apply analyze_fluency_ext.
  - rewrite !words_concat. cbn [segments].
    rewrite !map_app, !concat_app. cbn [map List.concat].
    unfold words_of_segment. cbn [seg_words]. now rewrite <- app_assoc.
  - replace (segs1 ++ mk_segment (Some ws1) end1
                   :: mk_segment (Some ws2) end2 :: segs2)
      with ((segs1 ++ [mk_segment (Some ws1) end1])
              ++ mk_segment (Some ws2) end2 :: segs2)
      by (now rewrite <- app_assoc).
    rewrite !duration_app_nonempty.
    destruct segs2 as [|s segs2] using rev_ind.
    + reflexivity.
    + now rewrite (duration_last _ (mk_segment (Some ws2) end2 :: segs2) s),
        (duration_last _ (mk_segment (Some (ws1 ++ ws2)) end2 :: segs2) s).
Qed.

(** ** Normal forms *)

Lemma lower_char_idempotent (c : ascii) :
  PyStr.lower_char (PyStr.lower_char c) = PyStr.lower_char c.
Proof. destruct c as [[] [] [] [] [] [] [] []]; reflexivity. Qed.

Lemma lower_idempotent (s : string) :
  PyStr.lower (PyStr.lower s) = PyStr.lower s.
Proof.
  induction s as [|c s IH]; cbn; [reflexivity|].
  now rewrite lower_char_idempotent, IH.
Qed.

Lemma lower_lstrip (s : string) :
  PyStr.lower (PyStr.lstrip s) = PyStr.lstrip (PyStr.lower s).
Proof.
  induction s as [|c s IH]; cbn; [reflexivity|].
  rewrite isspace_lower_char. now destruct (PyStr.isspace c).
Qed.

Lemma lower_rstrip (s : string) :
  PyStr.lower (PyStr.rstrip s) = PyStr.rstrip (PyStr.lower s).
Proof.
  induction s as [|c s IH]; cbn; [reflexivity|].
  rewrite <- IH, isspace_lower_char.
  destruct (PyStr.rstrip s); cbn; [now destruct (PyStr.isspace c)|reflexivity].
Qed.

Lemma rstrip_idempotent (s : string) :
  PyStr.rstrip (PyStr.rstrip s) = PyStr.rstrip s.
Proof.
  induction s as [|c s IH]; cbn; [reflexivity|].
  destruct (PyStr.rstrip s) as [|d r] eqn:E.
  - destruct (PyStr.isspace c) eqn:Ec; cbn; [reflexivity | now rewrite Ec].
  - change (PyStr.rstrip (String c (String d r)))
      with (match PyStr.rstrip (String d r) with
            | EmptyString =>
                if PyStr.isspace c then EmptyString else String c EmptyString
            | String a r0 => String c (String a r0)
            end).
    now rewrite IH.
Qed.

Lemma starts_clean_lstrip (s : string) : starts_clean (PyStr.lstrip s) = true.
Proof.
  induction s as [|c s IH]; cbn; [reflexivity|].
  destruct (PyStr.isspace c) eqn:E; [exact IH | cbn; now rewrite E].
Qed.

Lemma starts_clean_rstrip (s : string) :
  starts_clean s = true -> starts_clean (PyStr.rstrip s) = true.
Proof.
  destruct s as [|c s]; cbn; [reflexivity|]. intros H.
  destruct (PyStr.rstrip s); [|exact H].
  destruct (PyStr.isspace c) eqn:Ec; [reflexivity | cbn; now rewrite Ec].
Qed.

Lemma lstrip_starts_clean (s : string) :
  starts_clean s = true -> PyStr.lstrip s = s.
Proof.
  destruct s as [|c s]; cbn; [reflexivity|].
  now destruct (PyStr.isspace c).
Qed.

Lemma strip_idempotent (s : string) :
  PyStr.strip (PyStr.strip s) = PyStr.strip s.
Proof.
  unfold PyStr.strip.
  rewrite (lstrip_starts_clean (PyStr.rstrip (PyStr.lstrip s)))
    by apply starts_clean_rstrip, starts_clean_lstrip.
  apply rstrip_idempotent.
Qed.

Lemma normalize_idempotent (s : string) :
  normalize (normalize s) = normalize s.
Proof.
  unfold normalize, PyStr.strip at 2.
  rewrite lower_rstrip, lower_lstrip, lower_idempotent.
  apply strip_idempotent.
Qed.

Lemma loop_body_renormalized (st : loop_state) (w : word_rec) :
  loop_body st (renormalized w) = loop_body st w.
Proof.
  unfold loop_body, renormalized. cbn [w_word w_start w_end].
  now rewrite normalize_idempotent.
Qed.

Lemma normal_entries_run_loop (ws : list word_rec) :
  Forall normal_entry (transcript_log (run_loop ws)).
Proof.
  unfold run_loop. apply loop_invariant; [|constructor].
  intros st w H. rewrite loop_body_log.
  apply Forall_app. split; [exact H|].
  unfold filler_entries, repetition_entries.
  apply Forall_app. split;
    [destruct (in_FILLERS _); repeat constructor; apply normalize_idempotent|].
  apply Forall_app. split;
    [destruct (repeats _ _); repeat constructor; apply normalize_idempotent|].
  apply Forall_app. split.
  - induction (pause_values _ _); constructor; [exact I | assumption].
  - repeat constructor. apply normalize_idempotent.
Qed.

(** X5. Every text in the log is in normal form, lower-cased and
    stripped, which normalizing again leaves as it is; and the loop ends
    in the same state when every word is given with its normalized text
    instead. *)
Theorem log_words_in_normal_form (ws : list word_rec) :
  Forall normal_entry (transcript_log (run_loop ws))
  /\ run_loop (map renormalized ws) = run_loop ws.
Proof.
  split; [apply normal_entries_run_loop|].
  unfold run_loop. generalize init_state.
  induction ws as [|w ws IH]; intros st; cbn [map fold_left];
    [reflexivity|].
  now rewrite loop_body_renormalized.
Qed.

(** ** What the texts decide and what the time stamps decide *)

(** Two runs of the loop, over words that agree on [key], keep their
    states in the relation [R] when one iteration does. *)
Lemma fold_related {A : Type} (key : word_rec -> A)
      (R : loop_state -> loop_state -> Prop) :
  (forall st st' w w',
      key w = key w' -> R st st' -> R (loop_body st w) (loop_body st' w')) ->
  forall ws ws',
    map key ws = map key ws' ->
    forall st st', R st st' ->
                   R (fold_left loop_body ws st) (fold_left loop_body ws' st').
Proof.
  intros Hstep ws. induction ws as [|w ws IH]; intros [|w' ws'] E;
    try discriminate; intros st st' H; cbn [fold_left]; [exact H|].
  injection E as Ew Ews. apply IH; [exact Ews|]. now apply Hstep.
Qed.

Lemma text_entries_pauses (l : list float) :
  text_entries (map PauseDetected l) = [].
Proof. induction l as [|a l IH]; cbn; auto. Qed.

Lemma text_entries_step (st : loop_state) (w : word_rec) :
  text_entries (transcript_log (loop_body st w))
  = text_entries (transcript_log st)
    ++ filler_entries (normalize (w_word w))
    ++ repetition_entries (prev_word st) (normalize (w_word w))
    ++ [PlainWord (normalize (w_word w))].
Proof.
  rewrite loop_body_log. unfold text_entries.
  rewrite !filter_app. fold (text_entries (map PauseDetected
    (pause_values (prev_end st) (w_start w)))).
  rewrite text_entries_pauses. f_equal.
  unfold filler_entries, repetition_entries.
  destruct (in_FILLERS _), (repeats _ _); reflexivity.
Qed.

(** X6. The time stamps play no part in the fillers and repetitions: two
    sequences of words with the same normalized texts give the same
    filler and repetition counts and the same log but for its pause
    entries. *)
Theorem texts_decide_fillers_and_repetitions (ws ws' : list word_rec) :
  map (fun w => normalize (w_word w)) ws
  = map (fun w => normalize (w_word w)) ws' ->
  repetitions (run_loop ws) = repetitions (run_loop ws')
  /\ filler_count (run_loop ws) = filler_count (run_loop ws')
  /\ text_entries (transcript_log (run_loop ws))
     = text_entries (transcript_log (run_loop ws')).
Proof.
  intros E.
  assert (H : same_text_state (run_loop ws) (run_loop ws')).
  { unfold run_loop.
    apply (fold_related (fun w => normalize (w_word w)) same_text_state);
      [|exact E | repeat split].
    intros st st' w w' Ew (Hp & Hr & Hf & Hl). unfold same_text_state.
    rewrite !text_entries_step, !loop_body_repetitions,
      !loop_body_filler_count.
    destruct (loop_body_prev st w) as [-> _].
    destruct (loop_body_prev st' w') as [-> _].
    cbv beta in Ew. now rewrite Hp, Hr, Hf, Hl, Ew. }
  destruct H as (_ & Hr & Hf & Hl). auto.
Qed.

Lemma texts_decide_fillers_and_repetitions_witness :
  map (fun w => normalize (w_word w))
      [mk_word "Um" 0 0.3; mk_word "um" 1.5 2]
  = map (fun w => normalize (w_word w))
        [mk_word " um " 5 6; mk_word "UM" 6 6.1]
  /\ repetitions (run_loop [mk_word "Um" 0 0.3; mk_word "um" 1.5 2])
     = repetitions (run_loop [mk_word " um " 5 6; mk_word "UM" 6 6.1])
  /\ filler_count (run_loop [mk_word "Um" 0 0.3; mk_word "um" 1.5 2])
     = filler_count (run_loop [mk_word " um " 5 6; mk_word "UM" 6 6.1])
  /\ text_entries
       (transcript_log (run_loop [mk_word "Um" 0 0.3; mk_word "um" 1.5 2]))
     = text_entries
         (transcript_log
            (run_loop [mk_word " um " 5 6; mk_word "UM" 6 6.1])).
Proof.
  split; [reflexivity|].
  apply (texts_decide_fillers_and_repetitions
           [mk_word "Um" 0 0.3; mk_word "um" 1.5 2]
           [mk_word " um " 5 6; mk_word "UM" 6 6.1]).
  reflexivity.
Defined.

(** X7. The texts play no part in the pauses: two sequences of words
    with the same start and end times give the same pause list and the
    same pause entries. *)
Theorem timestamps_decide_pauses (ws ws' : list word_rec) :
  map (fun w => (w_start w, w_end w)) ws
  = map (fun w => (w_start w, w_end w)) ws' ->
  pauses (run_loop ws) = pauses (run_loop ws')
  /\ pauses_of_log (transcript_log (run_loop ws))
     = pauses_of_log (transcript_log (run_loop ws')).
Proof.
  intros E. rewrite !pauses_of_log_run_loop.
  assert (H : same_time_state (run_loop ws) (run_loop ws')).
  { unfold run_loop.
    apply (fold_related (fun w => (w_start w, w_end w)) same_time_state);
      [|exact E | repeat split].
    intros st st' w w' Ew (He & Hp). injection Ew as Es Ee.
    unfold same_time_state. rewrite !loop_body_pauses.
    destruct (loop_body_prev st w) as [_ ->].
    destruct (loop_body_prev st' w') as [_ ->].
    now rewrite He, Hp, Es, Ee. }
  destruct H as [_ H]. auto.
Qed.

Lemma timestamps_decide_pauses_witness :
  map (fun w => (w_start w, w_end w))
      [mk_word "so" 0 0.5; mk_word "well" 1.5 2]
  = map (fun w => (w_start w, w_end w))
        [mk_word "um" 0 0.5; mk_word "um" 1.5 2]
  /\ pauses (run_loop [mk_word "so" 0 0.5; mk_word "well" 1.5 2])
     = pauses (run_loop [mk_word "um" 0 0.5; mk_word "um" 1.5 2])
  /\ pauses_of_log
       (transcript_log (run_loop [mk_word "so" 0 0.5; mk_word "well" 1.5 2]))
     = pauses_of_log
         (transcript_log (run_loop [mk_word "um" 0 0.5; mk_word "um" 1.5 2])).
Proof.
  split; [reflexivity|].
  apply (timestamps_decide_pauses
           [mk_word "so" 0 0.5; mk_word "well" 1.5 2]
           [mk_word "um" 0 0.5; mk_word "um" 1.5 2]).
  reflexivity.
Defined.

(** ** Magnitudes in binary64

    What the sums, quotients and differences of the pass come to, from
    the specification of the IEEE operations: numbers of one half or more
    add up to one half or more, such a number over a finite positive one
    is positive, and the difference of a number and one not below it is
    never positive. *)

Module Magnitude.

Local Open Scope Z_scope.


Lemma valid_finite (s : bool) (m : positive) (e : Z) :
  valid_binary (S754_finite s m e) = true ->
  Zpos (digits2_pos m) <= 53 /\ SpecFloat.emin prec emax <= e <= 971
  /\ (SpecFloat.emin prec emax < e -> Zpos (digits2_pos m) = 53).
Proof.
  cbn [SpecFloat.valid_binary]. unfold bounded, canonical_mantissa.
  intros H. apply andb_true_iff in H. destruct H as [H1 H2].
  apply Z.eqb_eq in H1. apply Z.leb_le in H2.
  unfold fexp, SpecFloat.emin, prec, emax in *. lia.
Qed.

Lemma sf_half_up_positive (x : spec_float) :
  sf_half_up x = true -> sf_positive x = true.
Proof. destruct x as [[|]|[|]| |[|] m e]; cbn; congruence. Qed.

Lemma above_threshold_half_up (p : float) :
  above_threshold p -> sf_half_up (Prim2SF p) = true.
Proof.
  unfold above_threshold. rewrite FloatAxioms.ltb_spec.
  replace (Prim2SF pause_threshold)
    with (S754_finite false 6305039478318694 (-53))
    by (vm_compute; reflexivity).
  pose proof (Prim2SF_valid p) as V.
  destruct (Prim2SF p) as [[|]|[|]| |[|] m e]; try (cbn; congruence).
  apply valid_finite in V. destruct V as (Hd & He & Hn).
  unfold SFltb, SFcompare. intros H.
  cbn [sf_half_up]. apply andb_true_iff.
  pose proof (digits2_pos_bounds m) as [Hlo _].
  destruct (Z.compare_spec (-53) e) as [E|E|E]; try discriminate.
  - subst e. split; [|reflexivity]. apply Z.leb_le.
    fold (Pos.compare 6305039478318694 m) in H.
    destruct (Pos.compare_spec 6305039478318694 m); try discriminate. lia.
  - split; [|apply Z.leb_le; lia]. apply Z.leb_le.
    rewrite Hn in Hlo by (unfold SpecFloat.emin, prec, emax; lia).
    exact Hlo.
Qed.

Lemma shr_fexp_m_half (m e : Z) (l : location) :
  2 ^ 52 <= m -> -53 <= e ->
  2 ^ 52 <= shr_m (fst (shr_fexp prec emax m e l)).
Proof.
  intros Hm He. rewrite shr_fexp_m by lia.
  destruct (0 <? shift_of m e) eqn:E; [|exact Hm].
  apply Z.ltb_lt in E.
  assert (Hn : shift_of m e = Zdigits2 m - 53).
  { unfold shift_of, fexp, SpecFloat.emin, prec, emax in *. lia. }
  pose proof (Zdigits2_lower m ltac:(lia)) as Hlo.
  apply Z.div_le_lower_bound; [apply Z.pow_pos_nonneg; lia|].
  rewrite Z.mul_comm, <- Z.pow_add_r by lia.
  replace (52 + shift_of m e) with (Zdigits2 m - 1) by lia. exact Hlo.
Qed.

Lemma binary_round_aux_half_up (mx ex : Z) (lx : location) :
  2 ^ 52 <= mx -> -53 <= ex ->
  sf_half_up (binary_round_aux prec emax false mx ex lx) = true.
Proof.
  intros Hm He. unfold binary_round_aux.
  pose proof (shr_fexp_m_half mx ex lx Hm He) as H1.
  pose proof (shr_fexp_e mx ex lx) as E1.
  destruct (shr_fexp prec emax mx ex lx) as [mrs' e'].
  cbn [fst snd] in H1, E1.
  pose proof (round_nearest_even_bounds (shr_m mrs')
                (loc_of_shr_record mrs')) as Hr.
  set (m1 := round_nearest_even (shr_m mrs') (loc_of_shr_record mrs')) in *.
  assert (He' : -53 <= e') by lia.
  pose proof (shr_fexp_m_half m1 e' loc_Exact ltac:(lia) He') as H3.
  pose proof (shr_fexp_e m1 e' loc_Exact) as E2.
  destruct (shr_fexp prec emax m1 e' loc_Exact) as [mrs'' e''].
  cbn [fst snd] in H3, E2.
  destruct (shr_m mrs'') as [|p|p]; try (exfalso; lia).
  destruct (e'' <=? emax - prec); [|reflexivity].
  cbn [sf_half_up]. apply andb_true_iff. split; apply Z.leb_le; lia.
Qed.

Lemma shl_align_m (m : positive) (e e' : Z) :
  Zpos m <= Zpos (fst (shl_align m e e')).
Proof.
  unfold shl_align. destruct (e' - e) as [|d|d]; cbn [fst]; try lia.
  rewrite Zpos_iter_xO.
  assert (1 <= 2 ^ Zpos d) by (apply Z.pow_le_mono_r with (b := 0); lia).
  nia.
Qed.

Lemma binary_round_half_up (m : positive) (e : Z) :
  2 ^ 52 <= Zpos m -> -53 <= e ->
  sf_half_up (binary_round prec emax false m e) = true.
Proof.
  intros Hm He. unfold binary_round.
  pose proof (shl_align_m m e (fexp prec emax (Zpos (digits2_pos m) + e)))
    as Hz.
  pose proof (shl_align_e m e (fexp prec emax (Zpos (digits2_pos m) + e)))
    as Ez.
  destruct (shl_align m e _) as [mz ez]. cbn [fst snd] in Hz, Ez.
  apply binary_round_aux_half_up; [lia|].
  unfold fexp, SpecFloat.emin, prec, emax in Ez.
  assert (53 <= Zpos (digits2_pos m)).
  { pose proof (digits2_pos_bounds m) as [_ Hup].
    destruct (Z.lt_ge_cases (Zpos (digits2_pos m)) 53) as [L|L]; [|lia].
    assert (2 ^ Zpos (digits2_pos m) <= 2 ^ 52)
      by (apply Z.pow_le_mono_r; lia).
    lia. }
  lia.
Qed.

Lemma SFadd_half_up (x y : spec_float) :
  sf_half_up x = true -> sf_half_up y = true ->
  sf_half_up (SF64add x y) = true.
Proof.
  intros Hx Hy.
  destruct x as [[|]|[|]| |[|] mx ex]; try discriminate;
    destruct y as [[|]|[|]| |[|] my ey]; try discriminate;
    try reflexivity; try assumption.
  cbn [sf_half_up] in Hx, Hy.
  apply andb_true_iff in Hx, Hy. destruct Hx as [Hmx Hex], Hy as [Hmy Hey].
  apply Z.leb_le in Hmx, Hex, Hmy, Hey.
  unfold SF64add, SFadd. cbn [cond_Zopp Z.add binary_normalize].
  pose proof (shl_align_m mx ex (Z.min ex ey)).
  apply binary_round_half_up; [|lia].
  rewrite Pos2Z.inj_add. lia.
Qed.

Lemma SFdiv_core_binary_pos (m1 m2 : positive) (e1 e2 : Z) :
  2 ^ 52 <= Zpos m1 -> Zpos (digits2_pos m1) <= 53 -> -53 <= e1 ->
  Zpos (digits2_pos m2) <= 53 -> e2 <= 971 ->
  let r := SFdiv_core_binary prec emax (Zpos m1) e1 (Zpos m2) e2 in
  0 < fst (fst r) /\ SpecFloat.emin prec emax <= snd (fst r).
Proof.
  intros Hm1 Hd1 He1 Hd2 He2. unfold SFdiv_core_binary.
  cbn [Zdigits2].
  set (e' := Z.min _ (e1 - e2)).
  set (s := e1 - e2 - e').
  assert (He' : SpecFloat.emin prec emax <= e' /\ 0 < s).
  { subst s e'. unfold fexp, SpecFloat.emin, prec, emax.
    pose proof (Pos2Z.is_pos (digits2_pos m2)). lia. }
  destruct He' as [He' Hs].
  set (m' := match s with Z0 => Zpos m1 | Zpos _ => Z.shiftl (Zpos m1) s
                     | Zneg _ => 0 end).
  assert (Hm' : Zpos m2 <= m').
  { subst m'. destruct s as [|p|p]; try lia.
    rewrite Z.shiftl_mul_pow2 by lia.
    pose proof (digits2_pos_bounds m2) as [_ Hup].
    assert (2 ^ Zpos (digits2_pos m2) <= 2 ^ 53)
      by (apply Z.pow_le_mono_r; lia).
    assert (2 ^ 1 <= 2 ^ Zpos p) by (apply Z.pow_le_mono_r; lia).
    change (2 ^ 53) with (2 ^ 52 * 2 ^ 1) in *. nia. }
  assert (Hq : 0 < m' / Zpos m2).
  { apply Z.lt_le_trans with 1; [lia|].
    apply Z.div_le_lower_bound; lia. }
  unfold Z.div in Hq.
  destruct (Z.div_eucl m' (Zpos m2)) as [q r]. cbn [fst snd]. auto.
Qed.

Lemma SFdiv_half_up_finite (x y : spec_float) :
  valid_binary x = true -> valid_binary y = true ->
  sf_half_up x = true -> sf_finite_plus y = true ->
  sf_positive (SF64div x y) = true.
Proof.
  intros Vx Vy Hx Hy.
  destruct x as [[|]|[|]| |[|] mx ex]; try discriminate;
    destruct y as [[|]|[|]| |[|] my ey]; try discriminate;
    try reflexivity.
  cbn [sf_half_up] in Hx. apply andb_true_iff in Hx.
  destruct Hx as [Hmx Hex]. apply Z.leb_le in Hmx, Hex.
  apply valid_finite in Vx, Vy.
  destruct Vx as (Hdx & _ & _), Vy as (Hdy & [_ Hey] & _).
  pose proof (SFdiv_core_binary_pos mx my ex ey Hmx Hdx Hex Hdy Hey) as H.
  unfold SF64div, SFdiv.
  destruct (SFdiv_core_binary prec emax (Zpos mx) ex (Zpos my) ey)
    as [[mz ez] lz].
  cbn [fst snd] in H. cbn [xorb].
  now apply binary_round_aux_positive.
Qed.

Lemma binary_round_negative (m : positive) (e : Z) :
  sf_positive (binary_round prec emax true m e) = false.
Proof.
  unfold binary_round, binary_round_aux.
  destruct (shl_align m e _) as [mz ez].
  destruct (shr_fexp prec emax (Zpos mz) ez loc_Exact) as [mrs' e'].
  destruct (shr_fexp prec emax _ e' loc_Exact) as [mrs'' e''].
  destruct (shr_m mrs'') as [|p|p]; try reflexivity.
  destruct (e'' <=? emax - prec); reflexivity.
Qed.

Lemma binary_normalize_nonpositive (z e : Z) :
  z <= 0 -> sf_positive (binary_normalize prec emax z e false) = false.
Proof.
  destruct z as [|p|p]; cbn [binary_normalize]; intros H;
    [reflexivity | lia | apply binary_round_negative].
Qed.

Lemma shl_align_value (m : positive) (e ez : Z) :
  ez <= e -> Zpos (fst (shl_align m e ez)) = Zpos m * 2 ^ (e - ez).
Proof.
  intros H. unfold shl_align.
  destruct (ez - e) as [|d|d] eqn:E; cbn [fst].
  - replace (e - ez) with 0 by lia. cbn. lia.
  - lia.
  - rewrite Zpos_iter_xO. f_equal. f_equal. lia.
Qed.

(** Of two valid positive numbers, the one with the smaller exponent has
    the smaller mantissa once both are written at that exponent. *)
Lemma aligned_lt (mx my : positive) (ex ey : Z) :
  valid_binary (S754_finite false mx ex) = true ->
  valid_binary (S754_finite false my ey) = true ->
  ex < ey ->
  Zpos (fst (shl_align mx ex (Z.min ex ey)))
  < Zpos (fst (shl_align my ey (Z.min ex ey))).
Proof.
  intros Vx Vy H. apply valid_finite in Vx, Vy.
  destruct Vx as (Hdx & Hex & _), Vy as (_ & _ & Hdy).
  rewrite !shl_align_value by lia.
  replace (Z.min ex ey) with ex by lia.
  replace (ex - ex) with 0 by lia. rewrite Z.pow_0_r, Z.mul_1_r.
  pose proof (digits2_pos_bounds mx) as [_ Hux].
  pose proof (digits2_pos_bounds my) as [Hly _].
  rewrite Hdy in Hly by lia. change (2 ^ (53 - 1)) with (2 ^ 52) in Hly.
  assert (2 ^ Zpos (digits2_pos mx) <= 2 ^ 53)
    by (apply Z.pow_le_mono_r; lia).
  assert (2 ^ 1 <= 2 ^ (ey - ex)) by (apply Z.pow_le_mono_r; lia).
  change (2 ^ 53) with (2 ^ 52 * 2 ^ 1) in *. nia.
Qed.

Lemma aligned_same (m : positive) (e : Z) :
  fst (shl_align m e (Z.min e e)) = m.
Proof.
  unfold shl_align. replace (Z.min e e - e) with 0 by lia. reflexivity.
Qed.

Lemma SFsub_of_leb (x y : spec_float) :
  valid_binary x = true -> valid_binary y = true ->
  SFleb x y = true -> sf_positive (SF64sub x y) = false.
Proof.
  intros Vx Vy.
  destruct x as [[|]|[|]| |[|] mx ex];
    destruct y as [[|]|[|]| |[|] my ey];
    try (cbn; congruence).
  - (* both negative *)
    unfold SFleb, SFcompare, SF64sub, SFsub. cbn [cond_Zopp].
    intros H. apply binary_normalize_nonpositive.
    destruct (Z.compare_spec ex ey) as [E|E|E]; try discriminate.
    + subst ey. rewrite !aligned_same.
      fold (Pos.compare mx my) in H.
      destruct (Pos.compare_spec mx my); cbn in H; try discriminate; lia.
    + pose proof (aligned_lt my mx ey ex Vy Vx E) as L.
      rewrite Z.min_comm in L. lia.
  - (* x negative, y positive *)
    intros _. unfold SF64sub, SFsub. cbn [cond_Zopp].
    apply binary_normalize_nonpositive. lia.
  - (* both positive *)
    unfold SFleb, SFcompare, SF64sub, SFsub. cbn [cond_Zopp].
    intros H. apply binary_normalize_nonpositive.
    destruct (Z.compare_spec ex ey) as [E|E|E]; try discriminate.
    + subst ey. rewrite !aligned_same.
      fold (Pos.compare mx my) in H.
      destruct (Pos.compare_spec mx my); try discriminate; lia.
    + pose proof (aligned_lt mx my ex ey Vx Vy E) as L. lia.
Qed.

End Magnitude.

Import Magnitude.

(** ** The average pause on the page *)

Lemma fold_add_half_up (ps : list float) (a : float) :
  Forall above_threshold ps ->
  sf_half_up (Prim2SF a) = true ->
  exists s, fold_left PyNum.add (map Float ps) (Float a) = Float s
            /\ sf_half_up (Prim2SF s) = true.
Proof.
  intros H. revert a. induction H as [|p ps Hp _ IH]; intros a Ha; cbn.
  - exists a. auto.
  - apply IH. rewrite FloatAxioms.add_spec.
    apply SFadd_half_up; [exact Ha | now apply above_threshold_half_up].
Qed.

Lemma sum_half_up (p : float) (ps : list float) :
  Forall above_threshold (p :: ps) ->
  exists s, PyNum.sum (p :: ps) = Float s
            /\ sf_half_up (Prim2SF s) = true.
Proof.
  intros H. inversion H as [|? ? Hp Hps]; subst.
  unfold PyNum.sum. cbn [map fold_left PyNum.add PyNum.to_float].
  apply fold_add_half_up; [exact Hps|].
  rewrite float_of_int_0, FloatAxioms.add_spec, Prim2SF_zero.
  pose proof (above_threshold_half_up p Hp) as E.
  destruct (Prim2SF p) as [[|]|[|]| |[|] m e]; try discriminate; exact E.
Qed.

Lemma avg_pause_positive (p : float) (ps : list float) :
  Forall above_threshold (p :: ps) ->
  PyNum.gt (avg_pause_of (p :: ps)) (Int 0) = true.
Proof.
  intros H. unfold avg_pause_of.
  destruct (sum_half_up p ps H) as (s & -> & Hs).
  cbn [PyNum.gt PyNum.to_float].
  rewrite float_of_int_0, ltb_zero_positive, FloatAxioms.div_spec.
  apply SFdiv_half_up_finite;
    auto using Prim2SF_valid, float_of_int_finite.
Qed.

(** X8. The page shows "No pauses" exactly when the log has no pause
    entry, and the average otherwise: an average over one pause or more
    is above zero, for it neither underflows to zero nor is a NaN. *)
Theorem no_pauses_shown_iff_no_pause_entry (result : transcription) :
  exists log m,
    analyze_fluency result = Ok (log, m)
    /\ (avg_pause_shown m = Text "No pauses" <-> count is_pause log = 0%Z)
    /\ (avg_pause_shown m = Formatted2f (Metrics.avg_pause m)
        <-> (0 < count is_pause log)%Z).
Proof.
  exists (log_of result), (metrics_of result).
  split; [apply analyze_fluency_returns|].
  destruct (consistent_run_loop (words result)) as (_ & _ & Hc).
  pose proof (pauses_above_threshold (words result)) as Ha.
  unfold log_of, metrics_of, avg_pause_shown, count;
    cbn [Metrics.avg_pause].
  rewrite Hc. unfold PyNum.len. rewrite length_map.
  destruct (pauses (run_loop (words result))) as [|p ps].
  - cbn. split; split; intros H; try reflexivity; try discriminate; lia.
  - rewrite (avg_pause_positive p ps Ha). cbn [List.length].
    split; split; intros H; try reflexivity; try discriminate; lia.
Qed.

(** ** Words that touch or overlap *)

Lemma no_pause_value_when_not_after (pe start : float) :
  (start <=? pe)%float = true -> pause_values (Some pe) start = [].
Proof.
  intros H. unfold pause_values.
  destruct (pause_threshold <? start - pe)%float eqn:E; [|reflexivity].
  apply above_threshold_positive in E.
  rewrite FloatAxioms.sub_spec in E.
  rewrite FloatAxioms.leb_spec in H.
  rewrite (SFsub_of_leb _ _ (Prim2SF_valid start) (Prim2SF_valid pe) H) in E.
  discriminate.
Qed.

(** X9. A word that starts at or before the end of the word before it
    gets no pause entry and adds nothing to the pause list: words that
    touch or overlap are never a pause. *)
Theorem no_pause_unless_start_after_previous_end
        (ws : list word_rec) (pw w : word_rec) :
  last_word ws = Some pw ->
  (w_start w <=? w_end pw)%float = true ->
  pauses (run_loop (ws ++ [w])) = pauses (run_loop ws)
  /\ filter is_pause (new_entries (run_loop ws) w) = [].
Proof.
  intros Hl H. destruct (tracks_run_loop ws) as [_ Hp].
  rewrite Hl in Hp. cbn [option_map] in Hp.
  rewrite run_loop_snoc, loop_body_pauses, new_entries_eq, Hp,
    (no_pause_value_when_not_after (w_end pw) (w_start w) H), app_nil_r.
  split; [reflexivity|].
  unfold filler_entries, repetition_entries.
  destruct (in_FILLERS _), (repeats _ _); reflexivity.
Qed.

Lemma no_pause_unless_start_after_previous_end_witness :
  last_word [mk_word "so" 0 1] = Some (mk_word "so" 0 1)
  /\ (w_start (mk_word "well" 0.9 2) <=? w_end (mk_word "so" 0 1))%float
     = true
  /\ pauses (run_loop ([mk_word "so" 0 1] ++ [mk_word "well" 0.9 2]))
     = pauses (run_loop [mk_word "so" 0 1])
  /\ filter is_pause
       (new_entries (run_loop [mk_word "so" 0 1]) (mk_word "well" 0.9 2))
     = [].
Proof.
  split; [reflexivity|]. split; [reflexivity|].
  apply (no_pause_unless_start_after_previous_end
           [mk_word "so" 0 1] (mk_word "so" 0 1) (mk_word "well" 0.9 2));
    reflexivity.
Defined.
